(** * scaling: power-law and non-power-law (Murari) confinement fits

    A shallow embedding of [scaling/powerlaw/powerlaw.py] and
    [scaling/NPL/Murari.py], and the properties of their model
    functions and of the statistics computed after the least-squares
    solve.

    Conventions of the embedding
    - Python exceptions are the [Raise] branch of [result].
    - Python [int]s are [Z].  The arity checks of the source compare
      them with [is not] (object identity), which is modelled by
      [py_is_not].
    - Floating-point numbers are an abstract type [F] with the
      operations numpy applies to them ([Num]); numpy arithmetic
      returns inf or nan with a warning where a Python float would
      raise, so these operations are total.  The instance [R_num]
      reads them as exact real arithmetic.
    - An argument is a numpy float64 scalar or a one-dimensional
      float64 array ([value]); binary numpy operators broadcast, and
      an augmented assignment to an array works in place.  Python's
      own [float] operands, whose [**] and [/] raise
      [ZeroDivisionError] or [OverflowError] where numpy returns inf,
      are not part of the embedding.
    - [scipy.optimize.leastsq] is not part of the repository: it is a
      parameter of the two [fit_model] functions. *)

From Stdlib Require Import String.
From Stdlib Require Import List ZArith QArith Lia Bool.
From Stdlib Require Import Reals Lra Qreals.
Import ListNotations.

(** ** Exceptions and the error monad *)

Inductive exn : Type :=
| ValueError (msg : string)
| IndexError
| TypeError.

Inductive result (A : Type) : Type :=
| Ok (a : A)
| Raise (e : exn).

Arguments Ok {A} a.
Arguments Raise {A} e.

Definition bind {A B : Type} (m : result A) (k : A -> result B) : result B :=
  match m with
  | Ok a => k a
  | Raise e => Raise e
  end.

Definition fmap {A B : Type} (f : A -> B) (m : result A) : result B :=
  bind m (fun a => Ok (f a)).

Declare Scope py_scope.
Delimit Scope py_scope with py.
Notation "x <- m ;; k" := (bind m (fun x => k))
  (at level 61, m at next level, right associativity) : py_scope.
Local Open Scope py_scope.

(** [for x in xs: acc = body(x, acc)] with exceptions. *)
Fixpoint foldM {A B : Type} (body : B -> A -> result A) (xs : list B) (acc : A)
  : result A :=
  match xs with
  | [] => Ok acc
  | x :: xs' => acc' <- body x acc ;; foldM body xs' acc'
  end.

(** [try: e  except: d] with a bare [except], which catches everything. *)
Definition try_except {A : Type} (m : result A) (d : A) : A :=
  match m with
  | Ok a => a
  | Raise _ => d
  end.

(** ** Python integers, sequences and identity *)

(** The message carried by every arity check of [powerlaw.py]. *)
Definition count_msg : string :=
  "number of input arguments does not match parameter count.".

(** The message numpy gives when two shapes do not broadcast. *)
Definition broadcast_msg : string :=
  "operands could not be broadcast together".

(** The message numpy gives when an in-place result would not fit the
    array it is written to. *)
Definition output_msg : string :=
  "non-broadcastable output operand".

Definition len {A : Type} (l : list A) : Z := Z.of_nat (length l).

(** CPython keeps one shared object for each integer from -5 to 256.
    Any other integer that [len] or an arithmetic operator returns is a
    fresh object, so [a is b] on two such results is false even when
    they are equal. *)
Definition small_int (a : Z) : bool := (-5 <=? a)%Z && (a <=? 256)%Z.

Definition py_is (a b : Z) : bool := (a =? b)%Z && small_int a.

Definition py_is_not (a b : Z) : bool := negb (py_is a b).

(** [l[i]]: negative indices count from the end. *)
Definition index {A : Type} (l : list A) (i : Z) : result A :=
  let j := if (i <? 0)%Z then (len l + i)%Z else i in
  if (j <? 0)%Z then Raise IndexError
  else match nth_error l (Z.to_nat j) with
       | Some a => Ok a
       | None => Raise IndexError
       end.

(** [range(n)] *)
Definition range (n : Z) : list Z := map Z.of_nat (seq 0 (Z.to_nat n)).

(** ** Floating-point operations *)

Class Num (F : Type) : Type := {
  fadd : F -> F -> F;
  fsub : F -> F -> F;
  fmul : F -> F -> F;
  fdiv : F -> F -> F;
  fpow : F -> F -> F;
  flog10 : F -> F;
  fexp : F -> F;
  fabs : F -> F;
  of_int : Z -> F;      (* an [int] operand converted to float *)
  fconst : Q -> F       (* a float literal *)
}.

(** ** numpy values *)

Section Numpy.
Context {F : Type} {num : Num F}.

Inductive value : Type :=
| Scalar (x : F)
| Array (xs : list F).

Definition is_scalar (v : value) : bool :=
  match v with Scalar _ => true | Array _ => false end.

(** Each input is a scalar or an array of [N] samples. *)
Definition conforms (N : nat) (v : value) : Prop :=
  match v with Scalar _ => True | Array xs => length xs = N end.

(** The [j]-th sample; a scalar stands for itself at every [j]. *)
Definition vnth (v : value) (j : nat) : F :=
  match v with Scalar x => x | Array xs => nth j xs (of_int 0) end.

Definition vmap (f : F -> F) (v : value) : value :=
  match v with
  | Scalar x => Scalar (f x)
  | Array xs => Array (map f xs)
  end.

Definition zip_with (f : F -> F -> F) (xs ys : list F) : list F :=
  map (fun p => f (fst p) (snd p)) (combine xs ys).

(** A binary ufunc: shapes [()], [(n,)] broadcast; [(1,)] stretches. *)
Definition bop (f : F -> F -> F) (a b : value) : result value :=
  match a, b with
  | Scalar x, Scalar y => Ok (Scalar (f x y))
  | Scalar x, Array ys => Ok (Array (map (f x) ys))
  | Array xs, Scalar y => Ok (Array (map (fun x => f x y) xs))
  | Array xs, Array ys =>
      if Nat.eqb (length xs) (length ys) then Ok (Array (zip_with f xs ys))
      else match xs, ys with
           | [x], _ => Ok (Array (map (f x) ys))
           | _, [y] => Ok (Array (map (fun x => f x y) xs))
           | _, _ => Raise (ValueError broadcast_msg)
           end
  end.

(** An augmented assignment [a op= b].  A float64 scalar is immutable
    and is rebound to [a op b]; an array is updated in place, so the
    broadcast result must have the shape of [a]. *)
Definition iop (f : F -> F -> F) (a b : value) : result value :=
  match a, b with
  | Array xs, Array ys =>
      if Nat.eqb (length xs) (length ys) then Ok (Array (zip_with f xs ys))
      else match xs, ys with
           | _, [y] => Ok (Array (map (fun x => f x y) xs))
           | [x], _ => Raise (ValueError output_msg)
           | _, _ => Raise (ValueError broadcast_msg)
           end
  | _, _ => bop f a b
  end.

(** [a.sum()] *)
Definition fsum (xs : list F) : F := fold_left fadd xs (of_int 0).

(** [a.mean()] *)
Definition fmean (xs : list F) : F := fdiv (fsum xs) (of_int (len xs)).

(** [np.zeros((n, m))] *)
Definition zeros (n m : nat) : list (list F) :=
  repeat (repeat (fconst 0) m) n.

(** [cov * w] for a two-dimensional array and a scalar *)
Definition mscale (m : list (list F)) (w : F) : list (list F) :=
  map (map (fun c => fmul c w)) m.

(** What [leastsq(..., full_output=True)] returns: the solution, the
    covariance estimate ([None] for a singular Jacobian), the
    residual vector at the solution ([infodict['fvec']]), the message
    and the status flag. *)
Record lsq_output : Type := {
  lsq_x : list F;
  lsq_cov_x : option (list (list F));
  lsq_fvec : list F;
  lsq_mesg : string;
  lsq_ier : Z
}.

(** The signature of [leastsq(func, x0, args=...)]. *)
Definition solver : Type :=
  (list F -> list value -> result value) -> list F -> list value ->
  result lsq_output.

(** The tuple [(p1, errors, r2, cov)] both [fit_model]s return. *)
Record fit_result : Type := {
  fit_p1 : list F;
  fit_errors : list F;
  fit_r2 : F;
  fit_cov : list (list F)
}.

(** The loop that ends both [fit_model]s:
<<
    errors = []
    for i in range(len(p1)):
        try:
            errors.append(np.absolute(cov_wt[i][i])**0.5)
        except:
            errors.append(0.0)
>>   *)
Definition error_entry (cov_wt : list (list F)) (i : Z) : F :=
  try_except
    (row <- index cov_wt i ;;
     c <- index row i ;;
     Ok (fpow (fabs c) (fconst 0.5)))
    (fconst 0).

Definition error_loop (cov_wt : list (list F)) (p1 : list F) : list F :=
  fold_left (fun errors i => errors ++ [error_entry cov_wt i])
            (range (len p1)) [].

End Numpy.

Arguments value F : clear implicits.
Arguments lsq_output F : clear implicits.
Arguments fit_result F : clear implicits.
Arguments solver F : clear implicits.

(** [len(v)]: a float has no length. *)
Definition py_len {F : Type} (v : value F) : result Z :=
  match v with
  | Scalar _ => Raise TypeError
  | Array xs => Ok (len xs)
  end.

(** ** scaling/powerlaw/powerlaw.py *)

Module Powerlaw.
Section Defs.
Context {F : Type} {num : Num F}.

(** One pass of the loop of [logmodel]:
    [fitfunc += param[i+1] * np.log10(args[i])] *)
Definition logmodel_body (param : list F) (args : list (value F))
           (i : Z) (fitfunc : value F) : result (value F) :=
  p <- index param (i + 1) ;;
  a <- index args i ;;
  iop fadd fitfunc (vmap (fmul p) (vmap flog10 a)).

Definition logmodel (param : list F) (args : list (value F))
  : result (value F) :=
  let nparams := len args in
  if py_is_not nparams (len param - 1) then Raise (ValueError count_msg)
  else
    p0 <- index param 0 ;;
    let fitfunc := Scalar (flog10 p0) in
    foldM (logmodel_body param args) (range nparams) fitfunc.

(** One pass of the loop of [linmodel]:
    [fitfunc = fitfunc * (args[i]**param[i+1])] *)
Definition linmodel_body (param : list F) (args : list (value F))
           (i : Z) (fitfunc : value F) : result (value F) :=
  a <- index args i ;;
  p <- index param (i + 1) ;;
  bop fmul fitfunc (vmap (fun x => fpow x p) a).

Definition linmodel (param : list F) (args : list (value F))
  : result (value F) :=
  let nparams := len args in
  if py_is_not nparams (len param - 1) then Raise (ValueError count_msg)
  else
    p0 <- index param 0 ;;
    let fitfunc := Scalar p0 in
    foldM (linmodel_body param args) (range nparams) fitfunc.

Definition errfunct (param : list F) (args : list (value F))
  : result (value F) :=
  let nparams := len args in
  if py_is_not nparams (len param) then Raise (ValueError count_msg)
  else
    ydata <- index args (-1) ;;
    let args := removelast args in
    m <- logmodel param args ;;
    bop fsub (vmap flog10 ydata) m.

Definition fit_model (leastsq : solver F) (values : list F)
           (guesses : list F) (args : list (value F))
  : result (fit_result F) :=
  let nguesses := len guesses in
  let nparams := len args in
  if py_is_not nparams (nguesses - 1) then Raise (ValueError count_msg)
  else
    let args_plus_vals := args ++ [Array values] in
    out <- leastsq errfunct guesses args_plus_vals ;;
    let p1 := lsq_x out in
    (* calculate R^2 value *)
    let ss_err := fsum (map (fun r => fpow r (of_int 2)) (lsq_fvec out)) in
    let ss_tot :=
      fsum (map (fun v => fpow (fsub (flog10 v) (flog10 (fmean values)))
                               (of_int 2)) values) in
    let r2 := fsub (fconst 1) (fdiv ss_err ss_tot) in
    let cov := match lsq_cov_x out with
               | None => let n := length p1 in zeros n n
               | Some c => c
               end in
    (* calculate errors of parameter estimates *)
    a0 <- index args 0 ;;
    n0 <- py_len a0 ;;
    let ss_err_wt := fdiv ss_err (of_int (n0 - nguesses)) in
    let cov_wt := mscale cov ss_err_wt in
    let errors := error_loop cov_wt p1 in
    Ok {| fit_p1 := p1; fit_errors := errors; fit_r2 := r2; fit_cov := cov |}.

End Defs.
End Powerlaw.

(** ** scaling/NPL/Murari.py *)

Module Murari.
Section Defs.
Context {F : Type} {num : Num F}.

Definition hfactor (hparams : list F) (n B : value F) : result (value F) :=
  h0 <- index hparams 0 ;;
  let npow := vmap (fun x => fpow x h0) n in
  h1 <- index hparams 1 ;;
  q <- bop fdiv n B ;;
  h2 <- index hparams 2 ;;
  let e := vmap fexp (vmap (fmul h1) (vmap (fun x => fpow x h2) q)) in
  let d := vmap (fun x => fpow x (fconst (-1))) (vmap (fadd (fconst 1)) e) in
  bop fmul npow d.

Definition NPL (params : list F) (Ip R kappa P n B : value F)
  : result (value F) :=
  let hparams := skipn 5 params in
  h <- hfactor hparams n B ;;
  p0 <- index params 0 ;;
  p1 <- index params 1 ;;
  let t1 := vmap (fmul p0) (vmap (fun x => fpow x p1) Ip) in
  p2 <- index params 2 ;;
  t2 <- bop fmul t1 (vmap (fun x => fpow x p2) R) ;;
  p3 <- index params 3 ;;
  t3 <- bop fmul t2 (vmap (fun x => fpow x p3) kappa) ;;
  p4 <- index params 4 ;;
  t4 <- bop fmul t3 (vmap (fun x => fpow x p4) P) ;;
  bop fmul t4 h.

Definition errfunct (params : list F) (Ip R kappa P n B tau : value F)
  : result (value F) :=
  m <- NPL params Ip R kappa P n B ;;
  bop fsub tau m.

(** [errfunct(x, *args)] as [leastsq] calls it. *)
Definition errfunct_star (params : list F) (args : list (value F))
  : result (value F) :=
  match args with
  | [Ip; R; kappa; P; n; B; tau] => errfunct params Ip R kappa P n B tau
  | _ => Raise TypeError
  end.

Definition fit_model (leastsq : solver F) (guesses : list F)
           (Ip R kappa P n B : value F) (values : list F)
  : result (fit_result F) :=
  let args := [Ip; R; kappa; P; n; B; Array values] in
  out <- leastsq errfunct_star guesses args ;;
  let p1 := lsq_x out in
  (* calculate R^2 value *)
  let ss_err := fsum (map (fun r => fpow r (of_int 2)) (lsq_fvec out)) in
  let ss_tot :=
    fsum (map (fun v => fpow (fsub (flog10 v) (flog10 (fmean values)))
                             (of_int 2)) values) in
  let r2 := fsub (fconst 1) (fdiv ss_err ss_tot) in
  let cov := match lsq_cov_x out with
             | None => let n := length p1 in zeros n n
             | Some c => c
             end in
  (* calculate errors of parameter estimates *)
  let ss_err_wt := fdiv ss_err (of_int (len values - len guesses)) in
  let cov_wt := mscale cov ss_err_wt in
  let errors := error_loop cov_wt p1 in
  Ok {| fit_p1 := p1; fit_errors := errors; fit_r2 := r2; fit_cov := cov |}.

End Defs.
End Murari.

(** ** Exact real arithmetic as an instance of the operations *)

(** [x ** y] on the reals, where numpy returns a finite number: a
    positive base, a zero base with a non-negative exponent, and a
    negative base with an integer exponent.  (Elsewhere numpy returns
    inf or nan, which the reals do not have.) *)
Definition Rpow (x y : R) : R :=
  if Rlt_dec 0 x then Rpower x y
  else if Req_EM_T x 0 then (if Req_EM_T y 0 then 1%R else 0%R)
  else if Req_EM_T y (IZR (Int_part y)) then powerRZ x (Int_part y)
  else 0%R.

(** [np.log10] on the positive reals. *)
Definition Rlog10 (x : R) : R := (ln x / ln 10)%R.

#[export] Instance R_num : Num R := {
  fadd := Rplus;
  fsub := Rminus;
  fmul := Rmult;
  fdiv := Rdiv;
  fpow := Rpow;
  flog10 := Rlog10;
  fexp := exp;
  fabs := Rabs;
  of_int := IZR;
  fconst := Q2R
}.

(** ** Closed forms the model functions are compared with *)

Section ClosedForms.
Context {F : Type} {num : Num F}.

(** The [j]-th sample of every argument. *)
Definition samples (args : list (value F)) (j : nat) : list F :=
  map (fun v => vnth v j) args.

(** [log10(p0) + sum_i ps[i] * log10(xs[i])], summed left to right. *)
Definition log_form (p0 : F) (ps xs : list F) : F :=
  fold_left (fun acc px => fadd acc (fmul (fst px) (flog10 (snd px))))
            (combine ps xs) (flog10 p0).

(** [p0 * prod_i xs[i] ^ ps[i]], multiplied left to right. *)
Definition lin_form (p0 : F) (ps xs : list F) : F :=
  fold_left (fun acc px => fmul acc (fpow (snd px) (fst px)))
            (combine ps xs) p0.

(** [n^h0 * (1 + exp(h1 * (n/B)^h2))^-1] *)
Definition hfactor_form (h0 h1 h2 n B : F) : F :=
  fmul (fpow n h0)
       (fpow (fadd (fconst 1) (fexp (fmul h1 (fpow (fdiv n B) h2))))
             (fconst (-1))).

(** [C * Ip^a1 * R^a2 * kappa^a3 * P^a4 * h] *)
Definition NPL_form (c a1 a2 a3 a4 Ip R kappa P h : F) : F :=
  fmul (fmul (fmul (fmul (fmul c (fpow Ip a1)) (fpow R a2)) (fpow kappa a3))
             (fpow P a4)) h.

(** Sum of the squares of a vector. *)
Definition sum_sq (xs : list F) : F :=
  fsum (map (fun r => fpow r (of_int 2)) xs).

(** Total sum of squares in log space about the mean of [values]. *)
Definition ss_tot_log (values : list F) : F :=
  sum_sq (map (fun v => fsub (flog10 v) (flog10 (fmean values))) values).

(** [1 - SSresid/SStotal] *)
Definition r_squared (fvec values : list F) : F :=
  fsub (fconst 1) (fdiv (sum_sq fvec) (ss_tot_log values)).

(** The covariance both [fit_model]s work with: the solver's, or
    zeros when it has none. *)
Definition cov_or_zeros (out : lsq_output F) : list (list F) :=
  match lsq_cov_x out with
  | Some c => c
  | None => zeros (length (lsq_x out)) (length (lsq_x out))
  end.

(** Reduced residual variance [SSresid / (N - #guesses)]. *)
Definition reduced_variance (fvec : list F) (N nguesses : Z) : F :=
  fdiv (sum_sq fvec) (of_int (N - nguesses)).

(** Entry [(i, j)] of a matrix, when it exists. *)
Definition entry (m : list (list F)) (i j : nat) : option F :=
  match nth_error m i with
  | Some row => nth_error row j
  | None => None
  end.

(** The 1-sigma error of parameter [i]. *)
Definition sigma (cov : list (list F)) (w : F) (i : nat) : F :=
  match entry cov i i with
  | Some c => fpow (fabs (fmul c w)) (fconst 0.5)
  | None => fconst 0
  end.

End ClosedForms.

(** [10 ** v] *)
Definition pow10 {F : Type} {num : Num F} (v : value F) : value F :=
  vmap (fun y => fpow (of_int 10) y) v.

(** Every sample of a real-valued argument is strictly positive. *)
Definition positive (v : value R) : Prop :=
  match v with
  | Scalar x => (0 < x)%R
  | Array xs => Forall (fun x => (0 < x)%R) xs
  end.

(** * Properties *)

(** ** Indexing and loops *)

Lemma index_nat {A : Type} (l : list A) (i : nat) (a : A) :
  nth_error l i = Some a -> index l (Z.of_nat i) = Ok a.
Proof.
  intros H. unfold index.
  destruct (Z.ltb_spec (Z.of_nat i) 0) as [Hneg | _]; [lia |].
  destruct (Z.ltb_spec (Z.of_nat i) 0) as [Hneg | _]; [lia |].
  now rewrite Nat2Z.id, H.
Qed.

Lemma index_nat_succ {A : Type} (l : list A) (i : nat) (a : A) :
  nth_error l (S i) = Some a -> index l (Z.of_nat i + 1) = Ok a.
Proof.
  intros H. replace (Z.of_nat i + 1)%Z with (Z.of_nat (S i)) by lia.
  now apply index_nat.
Qed.

Lemma index_out {A : Type} (l : list A) (i : nat) :
  (length l <= i)%nat -> index l (Z.of_nat i) = Raise IndexError.
Proof.
  intros H. unfold index.
  destruct (Z.ltb_spec (Z.of_nat i) 0) as [Hneg | _]; [lia |].
  destruct (Z.ltb_spec (Z.of_nat i) 0) as [Hneg | _]; [lia |].
  rewrite Nat2Z.id.
  now apply nth_error_None in H as ->.
Qed.

Lemma index_last {A : Type} (l : list A) (a : A) :
  index (l ++ [a]) (-1) = Ok a.
Proof.
  unfold index, len. rewrite length_app. cbn [length].
  destruct (Z.ltb_spec (-1) 0) as [_ | Hge]; [| lia].
  destruct (Z.ltb_spec (Z.of_nat (length l + 1) + -1) 0) as [Hneg | _]; [lia |].
  replace (Z.to_nat (Z.of_nat (length l + 1) + -1)) with (length l) by lia.
  now rewrite nth_error_app2, Nat.sub_diag by lia.
Qed.

Lemma py_is_not_small (a b : Z) :
  (0 <= a <= 256)%Z -> py_is_not a b = negb (a =? b)%Z.
Proof.
  intros H. unfold py_is_not, py_is, small_int.
  destruct (Z.leb_spec (-5) a); [| lia].
  destruct (Z.leb_spec a 256); [| lia].
  now rewrite andb_true_r.
Qed.

Lemma py_is_not_large (a b : Z) :
  (256 < a)%Z -> py_is_not a b = true.
Proof.
  intros H. unfold py_is_not, py_is, small_int.
  destruct (Z.leb_spec a 256); [lia |].
  now rewrite andb_false_r, andb_false_r.
Qed.

Lemma py_is_not_neq (a b : Z) : a <> b -> py_is_not a b = true.
Proof.
  intros H. unfold py_is_not, py_is.
  now destruct (Z.eqb_spec a b).
Qed.

(** A loop over [range(len(args))] that reads [ps[i]] and [args[i]]
    is a fold over the two sequences side by side. *)
Lemma foldM_seq_combine {A P V : Type} (g : P -> V -> A -> result A)
      (body : Z -> A -> result A) :
  forall (ps : list P) (args : list V) (s : nat) (acc : A),
    length ps = length args ->
    (forall i p a acc', nth_error ps i = Some p -> nth_error args i = Some a ->
                        body (Z.of_nat (s + i)) acc' = g p a acc') ->
    foldM body (map Z.of_nat (seq s (length args))) acc
    = foldM (fun pa acc' => g (fst pa) (snd pa) acc') (combine ps args) acc.
Proof.
  induction ps as [| p ps IH]; intros [| a args] s acc Hlen Hbody;
    try discriminate; [reflexivity |].
  cbn [length seq map combine foldM fst snd].
  rewrite <- (Hbody 0%nat p a acc eq_refl eq_refl), Nat.add_0_r.
  destruct (body (Z.of_nat s) acc) as [acc1 | e]; cbn [bind]; [| reflexivity].
  apply IH; [now injection Hlen |].
  intros i p' a' acc' Hp Ha.
  rewrite <- (Hbody (S i) p' a' acc' Hp Ha). f_equal. f_equal. lia.
Qed.

Lemma foldM_range_combine {A P V : Type} (g : P -> V -> A -> result A)
      (body : Z -> A -> result A) (ps : list P) (args : list V) (acc : A) :
  length ps = length args ->
  (forall i p a acc', nth_error ps i = Some p -> nth_error args i = Some a ->
                      body (Z.of_nat i) acc' = g p a acc') ->
  foldM body (range (len args)) acc
  = foldM (fun pa acc' => g (fst pa) (snd pa) acc') (combine ps args) acc.
Proof.
  intros Hlen Hbody. unfold range, len. rewrite Nat2Z.id.
  now apply foldM_seq_combine.
Qed.

(** ** Broadcasting, sample by sample *)

Section Broadcast.
Context {F : Type} {num : Num F}.
Implicit Types (a b c : value F) (f : F -> F -> F).

Lemma nth_zip_with f (d : F) :
  forall (xs ys : list F) (j : nat),
    length xs = length ys -> (j < length xs)%nat ->
    nth j (zip_with f xs ys) d = f (nth j xs d) (nth j ys d).
Proof.
  unfold zip_with.
  induction xs as [| x xs IH]; intros [| y ys] j Hlen Hj;
    cbn [length] in *; try lia.
  destruct j as [| j]; cbn [combine map nth fst snd]; [reflexivity |].
  apply IH; lia.
Qed.

Lemma length_zip_with f (xs ys : list F) :
  length xs = length ys -> length (zip_with f xs ys) = length xs.
Proof.
  intros H. unfold zip_with.
  rewrite length_map, length_combine. lia.
Qed.

Lemma nth_map_in (g : F -> F) (d : F) (xs : list F) (j : nat) :
  (j < length xs)%nat -> nth j (map g xs) d = g (nth j xs d).
Proof.
  intros Hj. rewrite (nth_indep _ d (g d)) by now rewrite length_map.
  apply map_nth.
Qed.

Lemma vmap_conforms (g : F -> F) (N : nat) a :
  conforms N a -> conforms N (vmap g a).
Proof. destruct a; cbn; [trivial | now rewrite length_map]. Qed.

Lemma vmap_is_scalar (g : F -> F) a : is_scalar (vmap g a) = is_scalar a.
Proof. now destruct a. Qed.

Lemma vnth_vmap (g : F -> F) (N : nat) a (j : nat) :
  conforms N a -> (j < N)%nat -> vnth (vmap g a) j = g (vnth a j).
Proof.
  destruct a as [x | xs]; cbn; [reflexivity |].
  intros <- Hj. now apply nth_map_in.
Qed.

(** On conforming operands a binary operator never fails and acts
    sample by sample. *)
Lemma bop_spec f (N : nat) a b :
  conforms N a -> conforms N b ->
  exists c, bop f a b = Ok c /\ conforms N c /\
            is_scalar c = is_scalar a && is_scalar b /\
            forall j, (j < N)%nat -> vnth c j = f (vnth a j) (vnth b j).
Proof.
  destruct a as [x | xs], b as [y | ys]; cbn [conforms bop]; intros Ha Hb.
  - eexists; repeat split.
  - eexists; repeat split; cbn; [now rewrite length_map |].
    intros j Hj. rewrite <- Hb in Hj. now apply nth_map_in.
  - eexists; repeat split; cbn; [now rewrite length_map |].
    intros j Hj. rewrite <- Ha in Hj.
    now rewrite (nth_map_in (fun x => f x y)).
  - rewrite Ha, Hb, Nat.eqb_refl.
    eexists; repeat split; cbn.
    + rewrite length_zip_with; congruence.
    + intros j Hj. apply nth_zip_with; congruence.
Qed.

(** So does an augmented assignment. *)
Lemma iop_spec f (N : nat) a b :
  conforms N a -> conforms N b ->
  exists c, iop f a b = Ok c /\ conforms N c /\
            is_scalar c = is_scalar a && is_scalar b /\
            forall j, (j < N)%nat -> vnth c j = f (vnth a j) (vnth b j).
Proof.
  intros Ha Hb.
  destruct a as [x | xs], b as [y | ys];
    try (now apply bop_spec).
  cbn [conforms iop] in *. rewrite Ha, Hb, Nat.eqb_refl.
  eexists; repeat split; cbn.
  - rewrite length_zip_with; congruence.
  - intros j Hj. apply nth_zip_with; congruence.
Qed.

(** Two conforming values of the same kind with the same samples are
    the same value. *)
Lemma value_ext (N : nat) a b :
  conforms N a -> conforms N b -> is_scalar a = is_scalar b ->
  (is_scalar a = true -> vnth a 0 = vnth b 0) ->
  (forall j, (j < N)%nat -> vnth a j = vnth b j) ->
  a = b.
Proof.
  destruct a as [x | xs], b as [y | ys]; cbn; intros Ha Hb Hk H0 Hj;
    try discriminate.
  - now rewrite H0.
  - f_equal. apply (nth_ext _ _ (of_int 0) (of_int 0)); [congruence |].
    intros j Hlt. apply Hj. congruence.
Qed.

Lemma Forall_conforms_scalar (N : nat) (args : list (value F)) :
  forallb is_scalar args = true -> Forall (conforms N) args.
Proof.
  induction args as [| [x | xs] args IH]; cbn; intros H;
    [constructor | constructor; [exact I | auto] | discriminate].
Qed.

End Broadcast.

(** ** The power-law model functions *)

Section PowerlawModel.
Context {F : Type} {num : Num F}.
Implicit Types (param ps : list F) (args : list (value F)).

(** A loop whose step acts sample by sample computes, at each sample,
    the fold of the step over the parameters and the samples. *)
Lemma foldM_pointwise
      (step : F -> value F -> value F -> result (value F))
      (s : F -> F -> F -> F) (N : nat) :
  (forall p a acc, conforms N a -> conforms N acc ->
     exists c, step p a acc = Ok c /\ conforms N c /\
               is_scalar c = is_scalar acc && is_scalar a /\
               forall j, (j < N)%nat ->
                         vnth c j = s (vnth acc j) p (vnth a j)) ->
  forall ps args acc,
    length ps = length args -> Forall (conforms N) args -> conforms N acc ->
    exists r,
      foldM (fun pa acc' => step (fst pa) (snd pa) acc') (combine ps args) acc
      = Ok r /\
      conforms N r /\
      is_scalar r = is_scalar acc && forallb is_scalar args /\
      forall j, (j < N)%nat ->
        vnth r j = fold_left (fun acc' px => s acc' (fst px) (snd px))
                             (combine ps (samples args j)) (vnth acc j).
Proof.
  intros Hstep.
  induction ps as [| p ps IH]; intros [| a args] acc Hlen Hargs Hacc;
    try discriminate.
  - exists acc. cbn. now rewrite andb_true_r.
  - inversion Hargs as [| ? ? Ha Hrest]; subst.
    destruct (Hstep p a acc Ha Hacc) as (c & Hc & Hconf & Hkind & Hpt).
    destruct (IH args c) as (r & Hr & Hrconf & Hrkind & Hrpt);
      [now injection Hlen | assumption | assumption |].
    exists r. cbn [combine foldM fst snd bind samples map forallb].
    rewrite Hc. cbn [bind]. repeat split; try assumption.
    + now rewrite Hrkind, Hkind, andb_assoc.
    + intros j Hj. cbn [fold_left fst snd].
      rewrite <- (Hpt j Hj). now apply Hrpt.
Qed.

Lemma logmodel_step_spec (N : nat) (p : F) (a acc : value F) :
  conforms N a -> conforms N acc ->
  exists c, iop fadd acc (vmap (fmul p) (vmap flog10 a)) = Ok c /\
            conforms N c /\
            is_scalar c = is_scalar acc && is_scalar a /\
            forall j, (j < N)%nat ->
              vnth c j = fadd (vnth acc j) (fmul p (flog10 (vnth a j))).
Proof.
  intros Ha Hacc.
  destruct (iop_spec fadd N acc (vmap (fmul p) (vmap flog10 a)))
    as (c & Hc & Hconf & Hkind & Hpt);
    [assumption | now do 2 apply vmap_conforms |].
  exists c. repeat split; try assumption.
  - now rewrite Hkind, !vmap_is_scalar.
  - intros j Hj. rewrite (Hpt j Hj).
    rewrite (vnth_vmap (fmul p) N), (vnth_vmap flog10 N);
      auto using vmap_conforms.
Qed.

Lemma linmodel_step_spec (N : nat) (p : F) (a acc : value F) :
  conforms N a -> conforms N acc ->
  exists c, bop fmul acc (vmap (fun x => fpow x p) a) = Ok c /\
            conforms N c /\
            is_scalar c = is_scalar acc && is_scalar a /\
            forall j, (j < N)%nat ->
              vnth c j = fmul (vnth acc j) (fpow (vnth a j) p).
Proof.
  intros Ha Hacc.
  destruct (bop_spec fmul N acc (vmap (fun x => fpow x p) a))
    as (c & Hc & Hconf & Hkind & Hpt);
    [assumption | now apply vmap_conforms |].
  exists c. repeat split; try assumption.
  - now rewrite Hkind, vmap_is_scalar.
  - intros j Hj. rewrite (Hpt j Hj).
    now rewrite (vnth_vmap (fun x => fpow x p) N).
Qed.

(** When the arity check passes, [logmodel] is its loop. *)
Lemma logmodel_loop (p0 : F) ps args :
  length ps = length args -> (length args <= 256)%nat ->
  Powerlaw.logmodel (p0 :: ps) args
  = foldM (fun pa acc =>
             iop fadd acc (vmap (fmul (fst pa)) (vmap flog10 (snd pa))))
          (combine ps args) (Scalar (flog10 p0)).
Proof.
  intros Hlen Hsmall. unfold Powerlaw.logmodel.
  rewrite py_is_not_small by (unfold len; lia).
  replace (len args =? len (p0 :: ps) - 1)%Z with true
    by (symmetry; apply Z.eqb_eq; unfold len; cbn [length]; lia).
  cbn [negb]. change (index (p0 :: ps) 0) with (Ok (A := F) p0). cbn [bind].
  apply (foldM_range_combine
           (fun p a acc => iop fadd acc (vmap (fmul p) (vmap flog10 a))));
    [assumption |].
  intros i p a acc Hp Ha. unfold Powerlaw.logmodel_body.
  rewrite (index_nat_succ (p0 :: ps) i p Hp), (index_nat args i a Ha).
  reflexivity.
Qed.

Lemma linmodel_loop (p0 : F) ps args :
  length ps = length args -> (length args <= 256)%nat ->
  Powerlaw.linmodel (p0 :: ps) args
  = foldM (fun pa acc =>
             bop fmul acc (vmap (fun x => fpow x (fst pa)) (snd pa)))
          (combine ps args) (Scalar p0).
Proof.
  intros Hlen Hsmall. unfold Powerlaw.linmodel.
  rewrite py_is_not_small by (unfold len; lia).
  replace (len args =? len (p0 :: ps) - 1)%Z with true
    by (symmetry; apply Z.eqb_eq; unfold len; cbn [length]; lia).
  cbn [negb]. change (index (p0 :: ps) 0) with (Ok (A := F) p0). cbn [bind].
  apply (foldM_range_combine
           (fun p a acc => bop fmul acc (vmap (fun x => fpow x p) a)));
    [assumption |].
  intros i p a acc Hp Ha. unfold Powerlaw.linmodel_body.
  rewrite (index_nat args i a Ha), (index_nat_succ (p0 :: ps) i p Hp).
  reflexivity.
Qed.

(** Beyond 256 arguments the identity test of the arity check fails
    whatever the parameter count. *)
Lemma logmodel_large param args :
  (256 < length args)%nat ->
  Powerlaw.logmodel param args = Raise (ValueError count_msg).
Proof.
  intros H. unfold Powerlaw.logmodel.
  now rewrite py_is_not_large by (unfold len; lia).
Qed.

Lemma linmodel_large param args :
  (256 < length args)%nat ->
  Powerlaw.linmodel param args = Raise (ValueError count_msg).
Proof.
  intros H. unfold Powerlaw.linmodel.
  now rewrite py_is_not_large by (unfold len; lia).
Qed.

Lemma logmodel_mismatch param args :
  len args <> (len param - 1)%Z ->
  Powerlaw.logmodel param args = Raise (ValueError count_msg).
Proof.
  intros H. unfold Powerlaw.logmodel. now rewrite py_is_not_neq.
Qed.

Lemma linmodel_mismatch param args :
  len args <> (len param - 1)%Z ->
  Powerlaw.linmodel param args = Raise (ValueError count_msg).
Proof.
  intros H. unfold Powerlaw.linmodel. now rewrite py_is_not_neq.
Qed.

(** [logmodel] on conforming arguments: the log-linear form at every
    sample. *)
Lemma logmodel_spec (N : nat) (p0 : F) ps args :
  length ps = length args -> (length args <= 256)%nat ->
  Forall (conforms N) args ->
  exists l, Powerlaw.logmodel (p0 :: ps) args = Ok l /\
            conforms N l /\
            is_scalar l = forallb is_scalar args /\
            forall j, (j < N)%nat ->
                      vnth l j = log_form p0 ps (samples args j).
Proof.
  intros Hlen Hsmall Hargs. rewrite logmodel_loop by assumption.
  destruct (foldM_pointwise
              (fun p a acc => iop fadd acc (vmap (fmul p) (vmap flog10 a)))
              (fun acc p x => fadd acc (fmul p (flog10 x))) N
              (logmodel_step_spec N)
              ps args (Scalar (flog10 p0)) Hlen Hargs I)
    as (r & Hr & Hconf & Hkind & Hpt).
  exists r. repeat split; assumption.
Qed.

(** [linmodel] on conforming arguments: the product form at every
    sample. *)
Lemma linmodel_spec (N : nat) (p0 : F) ps args :
  length ps = length args -> (length args <= 256)%nat ->
  Forall (conforms N) args ->
  exists v, Powerlaw.linmodel (p0 :: ps) args = Ok v /\
            conforms N v /\
            is_scalar v = forallb is_scalar args /\
            forall j, (j < N)%nat ->
                      vnth v j = lin_form p0 ps (samples args j).
Proof.
  intros Hlen Hsmall Hargs. rewrite linmodel_loop by assumption.
  destruct (foldM_pointwise
              (fun p a acc => bop fmul acc (vmap (fun x => fpow x p) a))
              (fun acc p x => fmul acc (fpow x p)) N
              (linmodel_step_spec N)
              ps args (Scalar p0) Hlen Hargs I)
    as (r & Hr & Hconf & Hkind & Hpt).
  exists r. repeat split; assumption.
Qed.

End PowerlawModel.

(** ** Real arithmetic *)

Section RealFacts.
Local Open Scope R_scope.

Lemma Rpow_pos (x y : R) : 0 < x -> Rpow x y = Rpower x y.
Proof. intros H. unfold Rpow. now destruct (Rlt_dec 0 x). Qed.

Lemma Rpow_gt_0 (x y : R) : 0 < x -> 0 < Rpow x y.
Proof. intros H. rewrite Rpow_pos by assumption. apply exp_pos. Qed.

Lemma ln_10_pos : 0 < ln 10.
Proof. rewrite <- ln_1. apply ln_increasing; lra. Qed.

Lemma pow10_plus (a b : R) : Rpow 10 (a + b) = Rpow 10 a * Rpow 10 b.
Proof. rewrite !Rpow_pos by lra. apply Rpower_plus. Qed.

Lemma pow10_log10 (x : R) : 0 < x -> Rpow 10 (Rlog10 x) = x.
Proof.
  intros H. rewrite Rpow_pos by lra. unfold Rpower, Rlog10.
  replace (ln x / ln 10 * ln 10) with (ln x)
    by (field; apply Rgt_not_eq, ln_10_pos).
  now apply exp_ln.
Qed.

Lemma pow10_mul_log10 (p x : R) :
  0 < x -> Rpow 10 (p * Rlog10 x) = Rpow x p.
Proof.
  intros H. rewrite !Rpow_pos by lra. unfold Rpower, Rlog10.
  f_equal. field. apply Rgt_not_eq, ln_10_pos.
Qed.

(** Ten to the log-linear form is the product form. *)
Lemma pow10_fold (ps xs : list R) :
  Forall (fun x => 0 < x) xs ->
  forall accl accv : R,
    Rpow 10 accl = accv ->
    Rpow 10 (fold_left
               (fun acc px => fadd acc (fmul (fst px) (flog10 (snd px))))
               (combine ps xs) accl)
    = fold_left (fun acc px => fmul acc (fpow (snd px) (fst px)))
                (combine ps xs) accv.
Proof.
  intros Hpos. revert ps.
  induction Hpos as [| x xs Hx Hxs IH]; intros [| p ps] accl accv Hacc;
    cbn [combine fold_left fst snd]; try assumption.
  apply IH. cbn. rewrite pow10_plus, pow10_mul_log10 by assumption.
  now rewrite Hacc.
Qed.

Lemma pow10_log_form (p0 : R) (ps xs : list R) :
  0 < p0 -> Forall (fun x => 0 < x) xs ->
  Rpow 10 (log_form p0 ps xs) = lin_form p0 ps xs.
Proof.
  intros Hp0 Hxs. unfold log_form, lin_form.
  apply pow10_fold; [assumption |].
  cbn. now apply pow10_log10.
Qed.

End RealFacts.

Lemma positive_vnth (N : nat) (v : value R) (j : nat) :
  positive v -> conforms N v -> (j < N)%nat -> (0 < vnth v j)%R.
Proof.
  destruct v as [x | xs]; cbn; [trivial |].
  intros Hpos <- Hj. rewrite Forall_forall in Hpos.
  apply Hpos, nth_In, Hj.
Qed.

Lemma positive_samples (N : nat) (args : list (value R)) (j : nat) :
  Forall positive args -> Forall (conforms N) args -> (j < N)%nat ->
  Forall (fun x => (0 < x)%R) (samples args j).
Proof.
  intros Hpos. induction Hpos as [| v args Hv _ IH]; intros Hconf Hj;
    cbn; constructor; inversion Hconf; subst; eauto using positive_vnth.
Qed.

Lemma pow10_spec {F : Type} {num : Num F} (N : nat) (l : value F) :
  conforms N l ->
  conforms N (pow10 l) /\ is_scalar (pow10 l) = is_scalar l /\
  forall j, (j < N)%nat -> vnth (pow10 l) j = fpow (of_int 10) (vnth l j).
Proof.
  intros H. unfold pow10. repeat split.
  - now apply vmap_conforms.
  - apply vmap_is_scalar.
  - intros j Hj. now apply (vnth_vmap _ N).
Qed.

(** ** C1: the linear model is ten to the log model *)

(** The two models agree on positive conforming inputs, when both
    accept them. *)
Lemma linmodel_pow10_small (N : nat) (p0 : R) (ps : list R)
      (xs : list (value R)) :
  (0 < p0)%R -> Forall positive xs -> Forall (conforms N) xs ->
  length ps = length xs -> (length xs <= 256)%nat ->
  exists l v,
    Powerlaw.logmodel (p0 :: ps) xs = Ok l /\
    Powerlaw.linmodel (p0 :: ps) xs = Ok v /\
    v = pow10 l /\
    forall j, (j < N)%nat ->
      vnth l j = log_form p0 ps (samples xs j) /\
      vnth v j = lin_form p0 ps (samples xs j) /\
      vnth v j = Rpow 10 (vnth l j).
Proof.
  intros Hp0 Hpos Hconf Hlen Hsmall.
  destruct (logmodel_spec N p0 ps xs Hlen Hsmall Hconf)
    as (l & Hl & Hlconf & Hlkind & Hlpt).
  destruct (linmodel_spec N p0 ps xs Hlen Hsmall Hconf)
    as (v & Hv & Hvconf & Hvkind & Hvpt).
  exists l, v. repeat split; try assumption.
  - (* the values coincide *)
    destruct (forallb is_scalar xs) eqn:Hkind.
    + (* scalars only: one sample stands for all *)
      pose proof (Forall_conforms_scalar 1 xs Hkind) as Hconf1.
      destruct (logmodel_spec 1 p0 ps xs Hlen Hsmall Hconf1)
        as (l1 & Hl1 & _ & _ & Hl1pt).
      destruct (linmodel_spec 1 p0 ps xs Hlen Hsmall Hconf1)
        as (v1 & Hv1 & _ & _ & Hv1pt).
      rewrite Hl in Hl1. rewrite Hv in Hv1.
      injection Hl1 as <-. injection Hv1 as <-.
      destruct l as [y | ?], v as [z | ?]; try discriminate.
      cbn. f_equal.
      specialize (Hl1pt 0%nat (Nat.lt_0_1)).
      specialize (Hv1pt 0%nat (Nat.lt_0_1)).
      cbn [vnth] in Hl1pt, Hv1pt. rewrite Hl1pt, Hv1pt.
      symmetry. apply pow10_log_form; [assumption |].
      apply (positive_samples 1); [assumption | assumption | lia].
    + destruct (pow10_spec N l Hlconf) as (Hpc & Hpk & Hpp).
      apply (value_ext N); try assumption.
      * congruence.
      * rewrite Hvkind. discriminate.
      * intros j Hj. rewrite Hpp, Hvpt, Hlpt by assumption.
        symmetry. apply pow10_log_form; [assumption |].
        now apply (positive_samples N).
  - now apply Hlpt.
  - now apply Hvpt.
  - rewrite Hvpt, Hlpt by assumption.
    symmetry. apply pow10_log_form; [assumption |].
    now apply (positive_samples N).
Qed.

(** C1.  For parameters [p0 :: ps] with [p0 > 0] and strictly positive
    inputs [xs], one per exponent, each a scalar or an array of [N]
    samples, [linmodel(params, *xs)] is [10 ** logmodel(params, *xs)]
    in exact real arithmetic: the two calls have the same outcome, and
    with at most 256 inputs both return, [linmodel] the product form
    [p0 * prod xs[i]^ps[i]] and [logmodel] the form
    [log10(p0) + sum ps[i]*log10(xs[i])] at every sample. *)
Theorem C1_linmodel_is_pow10_logmodel (N : nat) (p0 : R) (ps : list R)
        (xs : list (value R)) :
  (0 < p0)%R -> Forall positive xs -> Forall (conforms N) xs ->
  len xs = (len (p0 :: ps) - 1)%Z ->
  Powerlaw.linmodel (p0 :: ps) xs
  = fmap pow10 (Powerlaw.logmodel (p0 :: ps) xs) /\
  ((length xs <= 256)%nat ->
   exists l v,
     Powerlaw.logmodel (p0 :: ps) xs = Ok l /\
     Powerlaw.linmodel (p0 :: ps) xs = Ok v /\
     v = pow10 l /\
     forall j, (j < N)%nat ->
       vnth l j = log_form p0 ps (samples xs j) /\
       vnth v j = lin_form p0 ps (samples xs j) /\
       vnth v j = Rpow 10 (vnth l j)).
Proof.
  intros Hp0 Hpos Hconf Hlen.
  assert (Hlen' : length ps = length xs)
    by (unfold len in Hlen; cbn [length] in Hlen; lia).
  split.
  - destruct (Nat.le_gt_cases (length xs) 256) as [Hsmall | Hlarge].
    + destruct (linmodel_pow10_small N p0 ps xs Hp0 Hpos Hconf Hlen' Hsmall)
        as (l & v & Hl & Hv & Heq & _).
      now rewrite Hl, Hv, Heq.
    + now rewrite linmodel_large, logmodel_large.
  - intros Hsmall. now apply linmodel_pow10_small.
Qed.

Lemma C1_linmodel_is_pow10_logmodel_witness :
  Powerlaw.linmodel [2; 1.5]%R [Scalar 10%R]
  = fmap pow10 (Powerlaw.logmodel [2; 1.5]%R [Scalar 10%R]).
Proof.
  apply (C1_linmodel_is_pow10_logmodel 1 2%R [1.5%R] [Scalar 10%R]).
  - lra.
  - repeat constructor. cbn. lra.
  - repeat constructor.
  - reflexivity.
Defined.

(** Without a common length the two models part: on an array of one
    sample followed by an array of three, all positive and one per
    exponent, [logmodel] raises from its in-place sum and [linmodel]
    returns three values, so [linmodel] is not [10 ** logmodel]
    there. *)
Lemma C1_counterexample_unequal_arrays :
  (0 < 2)%R /\
  Forall positive [Array [10]%R; Array [10; 100; 1000]%R] /\
  len [Array [10]%R; Array [10; 100; 1000]%R] = (len [2; 1; 1]%R - 1)%Z /\
  Powerlaw.logmodel [2; 1; 1]%R [Array [10]%R; Array [10; 100; 1000]%R]
  = Raise (ValueError output_msg) /\
  (exists v, Powerlaw.linmodel [2; 1; 1]%R
                               [Array [10]%R; Array [10; 100; 1000]%R]
             = Ok (Array v) /\ length v = 3%nat) /\
  Powerlaw.linmodel [2; 1; 1]%R [Array [10]%R; Array [10; 100; 1000]%R]
  <> fmap pow10 (Powerlaw.logmodel [2; 1; 1]%R
                                   [Array [10]%R; Array [10; 100; 1000]%R]).
Proof.
  split; [lra |]. split; [repeat constructor; lra |].
  split; [reflexivity |]. split; [reflexivity |].
  split; [eexists; split; reflexivity |].
  discriminate.
Qed.

(** A worked case:
    [logmodel([2.0, 1.5], 10.0) == log10(2.0) + 1.5*log10(10.0)] and
    [linmodel([2.0, 1.5], 10.0) == 2.0 * 10.0**1.5]. *)
Example logmodel_scenario :
  Powerlaw.logmodel [2; 1.5]%R [Scalar 10%R]
  = Ok (Scalar (Rlog10 2 + 1.5 * Rlog10 10)%R).
Proof. reflexivity. Qed.

Example linmodel_scenario :
  Powerlaw.linmodel [2; 1.5]%R [Scalar 10%R]
  = Ok (Scalar (2 * Rpow 10 1.5)%R).
Proof. reflexivity. Qed.

(** An array argument gives an array, sample by sample. *)
Example logmodel_array :
  Powerlaw.logmodel [2; 1.5]%R [Array [10; 100]%R]
  = Ok (Array [Rlog10 2 + 1.5 * Rlog10 10; Rlog10 2 + 1.5 * Rlog10 100]%R).
Proof. reflexivity. Qed.

(** Arrays of lengths 1 and 3: the in-place sum of [logmodel] cannot
    grow its accumulator, the product of [linmodel] broadcasts. *)
Example logmodel_shapes :
  Powerlaw.logmodel [2; 1; 1]%R [Array [10]%R; Array [10; 100; 1000]%R]
  = Raise (ValueError output_msg).
Proof. reflexivity. Qed.

Example linmodel_shapes :
  exists v, Powerlaw.linmodel [2; 1; 1]%R
                              [Array [10]%R; Array [10; 100; 1000]%R]
            = Ok (Array v) /\ length v = 3%nat.
Proof. eexists. split; reflexivity. Qed.

(** ** C2: the arity checks *)

Section ArityChecks.
Context {F : Type} {num : Num F}.
Implicit Types (param : list F) (args : list (value F)).

(** The only exception of an arithmetic operator is the broadcast
    error. *)
Lemma bop_raises (f : F -> F -> F) (a b : value F) (e : exn) :
  bop f a b = Raise e -> e = ValueError broadcast_msg.
Proof.
  destruct a as [x | xs], b as [y | ys]; cbn; try discriminate.
  destruct (Nat.eqb (length xs) (length ys)); [discriminate |].
  destruct xs as [| x [| x' xs]], ys as [| y [| y' ys]];
    try discriminate; congruence.
Qed.

Lemma iop_raises (f : F -> F -> F) (a b : value F) (e : exn) :
  iop f a b = Raise e ->
  e = ValueError broadcast_msg \/ e = ValueError output_msg.
Proof.
  destruct a as [x | xs], b as [y | ys]; cbn [iop];
    try (intros H; left; now apply bop_raises in H).
  destruct (Nat.eqb (length xs) (length ys)); [discriminate |].
  destruct xs as [| x [| x' xs]], ys as [| y [| y' ys]];
    try discriminate; intros [= <-]; auto.
Qed.

Lemma foldM_raises {A B : Type} (body : B -> A -> result A)
      (shape : exn -> Prop) :
  (forall x acc e, body x acc = Raise e -> shape e) ->
  forall xs acc e, foldM body xs acc = Raise e -> shape e.
Proof.
  intros Hbody. induction xs as [| x xs IH]; intros acc e; cbn;
    [discriminate |].
  destruct (body x acc) as [acc' | e'] eqn:Hb; cbn.
  - apply IH.
  - intros [= <-]. eauto.
Qed.

Lemma count_msg_not_broadcast :
  ValueError count_msg <> ValueError broadcast_msg.
Proof. discriminate. Qed.

Lemma count_msg_not_output :
  ValueError count_msg <> ValueError output_msg.
Proof. discriminate. Qed.

(** With at most 256 arguments, [logmodel] raises the arity error
    exactly when the counts differ. *)
Lemma logmodel_check_small param args :
  (length args <= 256)%nat ->
  Powerlaw.logmodel param args = Raise (ValueError count_msg)
  <-> len args <> (len param - 1)%Z.
Proof.
  intros Hsmall. split; [| apply logmodel_mismatch].
  intros Hraise Heq.
  destruct param as [| p0 ps]; [unfold len in Heq; cbn in Heq; lia |].
  assert (Hlen : length ps = length args)
    by (unfold len in Heq; cbn [length] in Heq; lia).
  rewrite logmodel_loop in Hraise by assumption.
  apply foldM_raises
    with (shape := fun e => e = ValueError broadcast_msg \/
                            e = ValueError output_msg) in Hraise.
  - destruct Hraise as [H | H];
      [now apply count_msg_not_broadcast | now apply count_msg_not_output].
  - intros pa acc e. apply iop_raises.
Qed.

Lemma linmodel_check_small param args :
  (length args <= 256)%nat ->
  Powerlaw.linmodel param args = Raise (ValueError count_msg)
  <-> len args <> (len param - 1)%Z.
Proof.
  intros Hsmall. split; [| apply linmodel_mismatch].
  intros Hraise Heq.
  destruct param as [| p0 ps]; [unfold len in Heq; cbn in Heq; lia |].
  assert (Hlen : length ps = length args)
    by (unfold len in Heq; cbn [length] in Heq; lia).
  rewrite linmodel_loop in Hraise by assumption.
  apply foldM_raises
    with (shape := fun e => e = ValueError broadcast_msg) in Hraise.
  - now apply count_msg_not_broadcast.
  - intros pa acc e. apply bop_raises.
Qed.

Lemma errfunct_mismatch param args :
  len args <> len param ->
  Powerlaw.errfunct param args = Raise (ValueError count_msg).
Proof.
  intros H. unfold Powerlaw.errfunct. now rewrite py_is_not_neq.
Qed.

Lemma errfunct_large param args :
  (256 < length args)%nat ->
  Powerlaw.errfunct param args = Raise (ValueError count_msg).
Proof.
  intros H. unfold Powerlaw.errfunct.
  now rewrite py_is_not_large by (unfold len; lia).
Qed.

(** When its arity check passes, [errfunct] splits off the last
    argument and subtracts the log model of the rest from its
    logarithm. *)
Lemma errfunct_residual param (xs : list (value F)) (ydata : value F) :
  len (xs ++ [ydata]) = len param ->
  (length (xs ++ [ydata]) <= 256)%nat ->
  Powerlaw.errfunct param (xs ++ [ydata])
  = (m <- Powerlaw.logmodel param xs ;; bop fsub (vmap flog10 ydata) m).
Proof.
  intros Hlen Hsmall. unfold Powerlaw.errfunct.
  rewrite py_is_not_small by (unfold len; lia).
  rewrite Hlen, Z.eqb_refl. cbn [negb].
  now rewrite index_last, removelast_last.
Qed.

Lemma errfunct_check_small param args :
  (length args <= 256)%nat ->
  Powerlaw.errfunct param args = Raise (ValueError count_msg)
  <-> len args <> len param.
Proof.
  intros Hsmall. split; [| apply errfunct_mismatch].
  intros Hraise Heq.
  destruct (exists_last (l := args)) as (xs & ydata & ->).
  { intros ->.
    unfold Powerlaw.errfunct in Hraise. now rewrite <- Heq in Hraise. }
  rewrite errfunct_residual in Hraise by assumption.
  destruct (Powerlaw.logmodel param xs) as [m | e] eqn:Hm; cbn in Hraise.
  - apply bop_raises in Hraise. now apply count_msg_not_broadcast.
  - injection Hraise as ->.
    apply logmodel_check_small in Hm.
    + apply Hm. unfold len in *. rewrite length_app in Heq. cbn in Heq. lia.
    + rewrite length_app in Hsmall. lia.
Qed.

(** [fit_model] checks its own count before it calls the solver. *)
Lemma fit_model_mismatch (leastsq : solver F) (values guesses : list F) args :
  len args <> (len guesses - 1)%Z ->
  Powerlaw.fit_model leastsq values guesses args
  = Raise (ValueError count_msg).
Proof.
  intros H. unfold Powerlaw.fit_model. now rewrite py_is_not_neq.
Qed.

Lemma fit_model_large (leastsq : solver F) (values guesses : list F) args :
  (256 < length args)%nat ->
  Powerlaw.fit_model leastsq values guesses args
  = Raise (ValueError count_msg).
Proof.
  intros H. unfold Powerlaw.fit_model.
  now rewrite py_is_not_large by (unfold len; lia).
Qed.

End ArityChecks.

(** C2.  The arity checks compare the two counts with [is not].  At
    257 arguments and 258 parameters the counts agree, and [logmodel]
    and [linmodel] raise the arity error all the same; so do [errfunct]
    at 257 arguments and 257 parameters and [fit_model] at 257
    independent variables and 258 guesses. *)
Theorem C2_arity_error_on_matching_counts
        (leastsq : solver R) (values : list R) :
  let xs := repeat (Scalar 2%R) 257 in
  len xs = (len (repeat 1%R 258) - 1)%Z /\
  len xs = len (repeat 1%R 257) /\
  Powerlaw.logmodel (repeat 1%R 258) xs = Raise (ValueError count_msg) /\
  Powerlaw.linmodel (repeat 1%R 258) xs = Raise (ValueError count_msg) /\
  Powerlaw.errfunct (repeat 1%R 257) xs = Raise (ValueError count_msg) /\
  Powerlaw.fit_model leastsq values (repeat 1%R 258) xs
  = Raise (ValueError count_msg).
Proof.
  intros xs.
  assert (Hxs : length xs = 257%nat) by apply repeat_length.
  unfold len. rewrite !repeat_length, Hxs.
  split; [reflexivity | split; [reflexivity | split; [| split; [| split]]]].
  - apply logmodel_large. lia.
  - apply linmodel_large. lia.
  - apply errfunct_large. lia.
  - apply fit_model_large. lia.
Qed.

(** ** C6: the residual of the power-law fit *)


(** C6.  With 257 positional arguments and 257 parameters the arity
    check of [errfunct] raises, although the counts agree and
    [log10(ydata) - logmodel(params, rest)] is defined. *)
Theorem C6_errfunct_raises_at_257_arguments :
  let param := repeat 1%R 257 in
  let xs := repeat (Array [2; 3]%R) 256 in
  let ydata := Array [5; 7]%R in
  len (xs ++ [ydata]) = len param /\
  Powerlaw.errfunct param (xs ++ [ydata]) = Raise (ValueError count_msg) /\
  exists m r, Powerlaw.logmodel param xs = Ok m /\
              bop fsub (vmap flog10 ydata) m = Ok r.
Proof.
  intros param xs ydata.
  assert (Hxs : length xs = 256%nat) by apply repeat_length.
  split; [| split].
  - unfold len. rewrite length_app, Hxs. unfold param.
    now rewrite repeat_length.
  - apply errfunct_large. rewrite length_app, Hxs. cbn. lia.
  - change param with (1%R :: repeat 1%R 256).
    destruct (@logmodel_spec R R_num 2 1%R (repeat 1%R 256) xs)
      as (m & Hm & Hmconf & _).
    + now rewrite repeat_length.
    + lia.
    + apply Forall_forall. intros v Hv. apply repeat_spec in Hv. now subst.
    + destruct (bop_spec fsub 2 (vmap flog10 ydata) m)
        as (r & Hr & _); [reflexivity | exact Hmconf |].
      exists m, r. split; [exact Hm | exact Hr].
Qed.

(** ** C5: the non-power-law model *)

Section MurariModel.
Context {F : Type} {num : Num F}.

Lemma index_in (l : list F) (i : nat) (d : F) :
  (i < length l)%nat -> index l (Z.of_nat i) = Ok (nth i l d).
Proof. intros H. apply index_nat. now apply nth_error_nth'. Qed.

(** [hfactor] on conforming density and field: the suppression term
    at every sample. *)
Lemma hfactor_spec (N : nat) (hparams : list F) (n B : value F) (d : F) :
  (3 <= length hparams)%nat -> conforms N n -> conforms N B ->
  exists h,
    Murari.hfactor hparams n B = Ok h /\
    conforms N h /\
    is_scalar h = is_scalar n && is_scalar B /\
    forall j, (j < N)%nat ->
      vnth h j = hfactor_form (nth 0%nat hparams d) (nth 1%nat hparams d)
                              (nth 2%nat hparams d) (vnth n j) (vnth B j).
Proof.
  intros Hlen Hn HB. unfold Murari.hfactor.
  change (index hparams 0) with (index hparams (Z.of_nat 0)).
  change (index hparams 1) with (index hparams (Z.of_nat 1)).
  change (index hparams 2) with (index hparams (Z.of_nat 2)).
  rewrite (index_in hparams 0%nat d), (index_in hparams 1%nat d) by lia.
  cbn [bind].
  destruct (bop_spec fdiv N n B Hn HB) as (q & Hq & Hqconf & Hqkind & Hqpt).
  rewrite Hq. cbn [bind].
  rewrite (index_in hparams 2%nat d) by lia. cbn [bind].
  set (h0 := nth 0%nat hparams d). set (h1 := nth 1%nat hparams d).
  set (h2 := nth 2%nat hparams d).
  set (npow := vmap (fun x => fpow x h0) n).
  set (e := vmap fexp (vmap (fmul h1) (vmap (fun x => fpow x h2) q))).
  set (dn := vmap (fun x => fpow x (fconst (-1))) (vmap (fadd (fconst 1)) e)).
  assert (He : conforms N e) by (unfold e; auto using vmap_conforms).
  assert (Hdn : conforms N dn) by (unfold dn; auto using vmap_conforms).
  destruct (bop_spec fmul N npow dn) as (h & Hh & Hhconf & Hhkind & Hhpt);
    [unfold npow; auto using vmap_conforms | assumption |].
  exists h. repeat split; try assumption.
  - rewrite Hhkind. unfold npow, dn, e.
    now rewrite !vmap_is_scalar, Hqkind, andb_assoc, andb_diag.
  - intros j Hj. rewrite (Hhpt j Hj). unfold hfactor_form, npow, dn, e.
    repeat (rewrite (vnth_vmap _ N); auto using vmap_conforms).
    now rewrite (Hqpt j Hj).
Qed.

End MurariModel.

(** C5.  For a parameter list of at least eight entries and inputs
    that are scalars or arrays of [N] samples, [hfactor(params[5:], n, B)]
    is [n^a5 * (1 + exp(a6 * (n/B)^a7))^-1] and [NPL] is
    [params[0] * Ip^a1 * R^a2 * kappa^a3 * P^a4] times that factor, at
    every sample; the result is a scalar exactly when every input is. *)
Theorem C5_NPL_is_product_with_hfactor {F : Type} {num : Num F} (N : nat)
        (params : list F) (Ip R kappa P n B : value F) :
  (8 <= length params)%nat ->
  conforms N Ip -> conforms N R -> conforms N kappa -> conforms N P ->
  conforms N n -> conforms N B ->
  let a i := nth i params (of_int 0) in
  exists h v,
    Murari.hfactor (skipn 5 params) n B = Ok h /\
    Murari.NPL params Ip R kappa P n B = Ok v /\
    conforms N h /\ conforms N v /\
    is_scalar h = is_scalar n && is_scalar B /\
    is_scalar v = forallb is_scalar [Ip; R; kappa; P; n; B] /\
    forall j, (j < N)%nat ->
      vnth h j = hfactor_form (a 5%nat) (a 6%nat) (a 7%nat)
                              (vnth n j) (vnth B j) /\
      vnth v j = NPL_form (a 0%nat) (a 1%nat) (a 2%nat) (a 3%nat) (a 4%nat)
                          (vnth Ip j) (vnth R j) (vnth kappa j) (vnth P j)
                          (vnth h j).
Proof.
  intros Hlen HIp HR Hk HP Hn HB a.
  destruct (hfactor_spec N (skipn 5 params) n B (of_int 0))
    as (h & Hh & Hhconf & Hhkind & Hhpt);
    [rewrite length_skipn; lia | assumption | assumption |].
  exists h. unfold Murari.NPL. rewrite Hh. cbn [bind].
  change (index params 0) with (index params (Z.of_nat 0)).
  change (index params 1) with (index params (Z.of_nat 1)).
  change (index params 2) with (index params (Z.of_nat 2)).
  change (index params 3) with (index params (Z.of_nat 3)).
  change (index params 4) with (index params (Z.of_nat 4)).
  rewrite !(fun i => index_in params i (of_int 0)) by lia. cbn [bind].
  fold (a 0%nat) (a 1%nat) (a 2%nat) (a 3%nat) (a 4%nat).
  set (t1 := vmap (fmul (a 0%nat)) (vmap (fun x => fpow x (a 1%nat)) Ip)).
  assert (Ht1 : conforms N t1) by (unfold t1; auto using vmap_conforms).
  destruct (bop_spec fmul N t1 (vmap (fun x => fpow x (a 2%nat)) R))
    as (t2 & Ht2 & Ht2conf & Ht2kind & Ht2pt); auto using vmap_conforms.
  rewrite Ht2. cbn [bind].
  destruct (bop_spec fmul N t2 (vmap (fun x => fpow x (a 3%nat)) kappa))
    as (t3 & Ht3 & Ht3conf & Ht3kind & Ht3pt); auto using vmap_conforms.
  rewrite Ht3. cbn [bind].
  destruct (bop_spec fmul N t3 (vmap (fun x => fpow x (a 4%nat)) P))
    as (t4 & Ht4 & Ht4conf & Ht4kind & Ht4pt); auto using vmap_conforms.
  rewrite Ht4. cbn [bind].
  destruct (bop_spec fmul N t4 h)
    as (v & Hv & Hvconf & Hvkind & Hvpt); auto.
  exists v. repeat split; try assumption.
  - rewrite Hvkind, Ht4kind, Ht3kind, Ht2kind, Hhkind. unfold t1.
    rewrite !vmap_is_scalar. cbn [forallb].
    now rewrite andb_true_r, !andb_assoc.
  - rewrite (Hhpt j H). unfold a. now rewrite !nth_skipn.
  - rewrite (Hvpt j H), (Ht4pt j H), (Ht3pt j H), (Ht2pt j H). unfold t1.
    repeat (rewrite (vnth_vmap _ N); auto using vmap_conforms).
Qed.

Lemma C5_NPL_is_product_with_hfactor_witness :
  exists h v,
    Murari.hfactor [2; 1; 3]%R (Scalar 4%R) (Scalar 5%R) = Ok h /\
    Murari.NPL [7; 1; 2; 3; 1; 2; 1; 3]%R (Scalar 2%R) (Scalar 3%R)
               (Scalar 2%R) (Scalar 6%R) (Scalar 4%R) (Scalar 5%R) = Ok v /\
    vnth h 0 = hfactor_form 2%R 1%R 3%R 4%R 5%R /\
    vnth v 0 = NPL_form 7%R 1%R 2%R 3%R 1%R 2%R 3%R 2%R 6%R (vnth h 0).
Proof.
  destruct (@C5_NPL_is_product_with_hfactor R R_num 1
              [7; 1; 2; 3; 1; 2; 1; 3]%R (Scalar 2%R) (Scalar 3%R)
              (Scalar 2%R) (Scalar 6%R) (Scalar 4%R) (Scalar 5%R))
    as (h & v & Hh & Hv & _ & _ & _ & _ & Hpt);
    [cbn; lia | exact I | exact I | exact I | exact I | exact I | exact I |].
  exists h, v. destruct (Hpt 0%nat Nat.lt_0_1) as [Hhj Hvj].
  repeat split; assumption.
Defined.

(** ** C7: the suppression term falls as its second parameter grows *)

Section Suppression.
Local Open Scope R_scope.

Lemma Q2R_one : Q2R 1 = 1.
Proof. unfold Q2R. cbn. lra. Qed.

Lemma Q2R_minus_one : Q2R (-1) = -1.
Proof. unfold Q2R. cbn. lra. Qed.

(** The suppression term on positive density and field. *)
Lemma hfactor_form_pos (h0 h1 h2 n B : R) :
  0 < n -> 0 < B ->
  hfactor_form h0 h1 h2 n B
  = Rpower n h0 * / (1 + exp (h1 * Rpower (n / B) h2)).
Proof.
  intros Hn HB. unfold hfactor_form.
  cbn [fmul fpow fadd fexp fdiv fconst R_num].
  assert (Hq : 0 < n / B) by now apply Rdiv_lt_0_compat.
  assert (He : 0 < 1 + exp (h1 * Rpower (n / B) h2))
    by (pose proof (exp_pos (h1 * Rpower (n / B) h2)); lra).
  rewrite Q2R_one, Q2R_minus_one.
  rewrite (Rpow_pos n h0 Hn), (Rpow_pos (n / B) h2 Hq), Rpow_pos by assumption.
  replace (-1) with (- (1)) by lra.
  now rewrite Rpower_Ropp, Rpower_1.
Qed.


End Suppression.



(** ** The statistics of the two fits *)

Section FitStatistics.
Context {F : Type} {num : Num F}.

Lemma index_of_nat {A : Type} (l : list A) (i : nat) :
  index l (Z.of_nat i)
  = match nth_error l i with Some a => Ok a | None => Raise IndexError end.
Proof.
  destruct (nth_error l i) as [a |] eqn:H.
  - now apply index_nat.
  - apply index_out. now apply nth_error_None.
Qed.

(** The error loop visits the indices of [p1] in order. *)
Lemma fold_left_append {A B : Type} (g : B -> A) (l : list B) (acc : list A) :
  fold_left (fun errors i => errors ++ [g i]) l acc = acc ++ map g l.
Proof.
  revert acc. induction l as [| x l IH]; intros acc; cbn.
  - now rewrite app_nil_r.
  - now rewrite IH, <- app_assoc.
Qed.

Lemma error_loop_map (cov_wt : list (list F)) (p1 : list F) :
  error_loop cov_wt p1
  = map (fun i => error_entry cov_wt (Z.of_nat i)) (seq 0 (length p1)).
Proof.
  unfold error_loop, range, len.
  now rewrite fold_left_append, Nat2Z.id, map_map.
Qed.

(** One pass of the loop: the scaled diagonal entry when it exists,
    and [0.0] from the [except] branch when it does not. *)
Lemma error_entry_sigma (cov : list (list F)) (w : F) (i : nat) :
  error_entry (mscale cov w) (Z.of_nat i) = sigma cov w i.
Proof.
  unfold error_entry, sigma, entry, mscale.
  rewrite index_of_nat, nth_error_map.
  destruct (nth_error cov i) as [row |]; cbn; [| reflexivity].
  rewrite index_of_nat, nth_error_map.
  now destruct (nth_error row i).
Qed.

Lemma error_loop_sigma (cov : list (list F)) (w : F) (p1 : list F) :
  error_loop (mscale cov w) p1 = map (sigma cov w) (seq 0 (length p1)).
Proof.
  rewrite error_loop_map. apply map_ext. intros i. apply error_entry_sigma.
Qed.

Lemma length_error_loop (cov_wt : list (list F)) (p1 : list F) :
  length (error_loop cov_wt p1) = length p1.
Proof. now rewrite error_loop_map, length_map, length_seq. Qed.

Lemma nth_error_error_loop (cov : list (list F)) (w : F) (p1 : list F)
      (i : nat) :
  (i < length p1)%nat ->
  nth_error (error_loop (mscale cov w) p1) i = Some (sigma cov w i).
Proof.
  intros Hi. rewrite error_loop_sigma, nth_error_map, nth_error_seq.
  now apply Nat.ltb_lt in Hi as ->.
Qed.

Lemma entry_zeros (n i : nat) :
  (i < n)%nat -> entry (zeros n n) i i = Some (fconst 0).
Proof.
  intros Hi. unfold entry, zeros.
  now rewrite !nth_error_repeat by assumption.
Qed.

(** The two sums of squares of the source are those of the closed
    form. *)
Lemma r_squared_unfold (fvec values : list F) :
  r_squared fvec values
  = fsub (fconst 1)
         (fdiv (fsum (map (fun r => fpow r (of_int 2)) fvec))
               (fsum (map (fun v => fpow (fsub (flog10 v)
                                               (flog10 (fmean values)))
                                         (of_int 2)) values))).
Proof. unfold r_squared, ss_tot_log, sum_sq. now rewrite map_map. Qed.

(** What the power-law [fit_model] returns once its arity check has
    passed, the solver has returned, and the first independent
    variable is an array. *)
Lemma powerlaw_fit_model_returns (leastsq : solver F)
      (values guesses a0 : list F) (rest : list (value F))
      (out : lsq_output F) :
  len (Array a0 :: rest) = (len guesses - 1)%Z ->
  (length (Array a0 :: rest) <= 256)%nat ->
  leastsq Powerlaw.errfunct guesses ((Array a0 :: rest) ++ [Array values])
  = Ok out ->
  Powerlaw.fit_model leastsq values guesses (Array a0 :: rest)
  = Ok {| fit_p1 := lsq_x out;
          fit_errors :=
            error_loop
              (mscale (cov_or_zeros out)
                      (reduced_variance (lsq_fvec out) (len a0) (len guesses)))
              (lsq_x out);
          fit_r2 := r_squared (lsq_fvec out) values;
          fit_cov := cov_or_zeros out |}.
Proof.
  intros Hlen Hsmall Hout. unfold Powerlaw.fit_model.
  rewrite py_is_not_small by (unfold len; lia).
  rewrite Hlen, Z.eqb_refl. cbn [negb].
  rewrite Hout. cbn [bind index len length Z.ltb Z.of_nat Z.compare
                     Z.to_nat nth_error py_len].
  rewrite r_squared_unfold. unfold cov_or_zeros, reduced_variance, sum_sq.
  now destruct (lsq_cov_x out).
Qed.

(** What the NPL [fit_model] returns once the solver has. *)
Lemma murari_fit_model_returns (leastsq : solver F) (guesses : list F)
      (Ip R kappa P n B : value F) (values : list F) (out : lsq_output F) :
  leastsq Murari.errfunct_star guesses [Ip; R; kappa; P; n; B; Array values]
  = Ok out ->
  Murari.fit_model leastsq guesses Ip R kappa P n B values
  = Ok {| fit_p1 := lsq_x out;
          fit_errors :=
            error_loop
              (mscale (cov_or_zeros out)
                      (reduced_variance (lsq_fvec out) (len values)
                                        (len guesses)))
              (lsq_x out);
          fit_r2 := r_squared (lsq_fvec out) values;
          fit_cov := cov_or_zeros out |}.
Proof.
  intros Hout. unfold Murari.fit_model. rewrite Hout. cbn [bind].
  rewrite r_squared_unfold. unfold cov_or_zeros, reduced_variance, sum_sq.
  now destruct (lsq_cov_x out).
Qed.

End FitStatistics.

(** ** C3: the coefficient of determination *)

(** C3.  Once the solver has returned, both [fit_model]s return, with
    [R^2 = 1 - SSresid/SStotal], where [SSresid] is the sum of the
    squares of the solver's residual vector and [SStotal] is the sum of
    the squares of [log10(values) - log10(mean(values))].  The NPL fit
    uses this log-space total although its residual is the linear
    [tau - NPL(...)]; the residual of the power-law fit is the log-space
    [log10(ydata) - logmodel(...)]. *)
Theorem C3_r_squared_log_space_total {F : Type} {num : Num F}
        (leastsq : solver F) (values guesses a0 : list F)
        (rest : list (value F)) (out : lsq_output F)
        (guesses' : list F) (Ip R kappa P n B : value F)
        (out' : lsq_output F) :
  len (Array a0 :: rest) = (len guesses - 1)%Z ->
  (length (Array a0 :: rest) <= 256)%nat ->
  leastsq Powerlaw.errfunct guesses ((Array a0 :: rest) ++ [Array values])
  = Ok out ->
  leastsq Murari.errfunct_star guesses' [Ip; R; kappa; P; n; B; Array values]
  = Ok out' ->
  (exists res,
     Powerlaw.fit_model leastsq values guesses (Array a0 :: rest) = Ok res /\
     fit_r2 res
     = fsub (fconst 1) (fdiv (sum_sq (lsq_fvec out)) (ss_tot_log values))) /\
  (exists res,
     Murari.fit_model leastsq guesses' Ip R kappa P n B values = Ok res /\
     fit_r2 res
     = fsub (fconst 1) (fdiv (sum_sq (lsq_fvec out')) (ss_tot_log values))) /\
  (forall params tau,
     Murari.errfunct params Ip R kappa P n B tau
     = (m <- Murari.NPL params Ip R kappa P n B ;; bop fsub tau m)) /\
  (forall param xs ydata,
     len (xs ++ [ydata]) = len param ->
     (length (xs ++ [ydata]) <= 256)%nat ->
     Powerlaw.errfunct param (xs ++ [ydata])
     = (m <- Powerlaw.logmodel param xs ;; bop fsub (vmap flog10 ydata) m)).
Proof.
  intros Hlen Hsmall Hout Hout'.
  rewrite (powerlaw_fit_model_returns leastsq values guesses a0 rest out
                                      Hlen Hsmall Hout).
  rewrite (murari_fit_model_returns leastsq guesses' Ip R kappa P n B values
                                    out' Hout').
  split; [| split; [| split]].
  - eexists. split; reflexivity.
  - eexists. split; reflexivity.
  - reflexivity.
  - intros param xs ydata. apply errfunct_residual.
Qed.

Lemma C3_r_squared_log_space_total_witness :
  let out := {| lsq_x := [1; 2]%R; lsq_cov_x := Some [[1; 0]; [0; 1]]%R;
                lsq_fvec := [3; 4; 5]%R; lsq_mesg := EmptyString;
                lsq_ier := 1%Z |} in
  let leastsq : solver R := fun _ _ _ => Ok out in
  let values := [10; 100; 1000]%R in
  (exists res,
     Powerlaw.fit_model leastsq values [1; 1]%R [Array [2; 3; 4]%R] = Ok res /\
     fit_r2 res
     = fsub (fconst 1) (fdiv (sum_sq [3; 4; 5]%R) (ss_tot_log values))) /\
  (exists res,
     Murari.fit_model leastsq [1; 1]%R (Scalar 1%R) (Scalar 1%R) (Scalar 1%R)
                      (Scalar 1%R) (Scalar 1%R) (Scalar 1%R) values = Ok res /\
     fit_r2 res
     = fsub (fconst 1) (fdiv (sum_sq [3; 4; 5]%R) (ss_tot_log values))).
Proof.
  intros out leastsq values.
  destruct (C3_r_squared_log_space_total
              leastsq values [1; 1]%R [2; 3; 4]%R [] out
              [1; 1]%R (Scalar 1%R) (Scalar 1%R) (Scalar 1%R)
              (Scalar 1%R) (Scalar 1%R) (Scalar 1%R) out)
    as (Hp & Hn & _).
  - reflexivity.
  - cbn. lia.
  - reflexivity.
  - reflexivity.
  - split; assumption.
Defined.

(** ** C4: the one-sigma errors *)

(** C4.  Once the solver has returned, both [fit_model]s return the
    solver's parameters with one error per parameter.  With [N] the
    common sample length and [w = SSresid / (N - #guesses)], the error
    of parameter [i] is [|cov[i][i] * w| ** 0.5] when the covariance
    has an entry [(i, i)], and [0.0] when it has none; the parameters,
    [R^2] and the covariance are returned in either case. *)
Theorem C4_errors_from_scaled_covariance {F : Type} {num : Num F}
        (leastsq : solver F) (values guesses a0 : list F)
        (rest : list (value F)) (out : lsq_output F)
        (guesses' : list F) (Ip R kappa P n B : value F)
        (out' : lsq_output F) :
  len (Array a0 :: rest) = (len guesses - 1)%Z ->
  (length (Array a0 :: rest) <= 256)%nat ->
  length a0 = length values ->
  leastsq Powerlaw.errfunct guesses ((Array a0 :: rest) ++ [Array values])
  = Ok out ->
  leastsq Murari.errfunct_star guesses' [Ip; R; kappa; P; n; B; Array values]
  = Ok out' ->
  let N := len values in
  let w := fdiv (sum_sq (lsq_fvec out)) (of_int (N - len guesses)) in
  let w' := fdiv (sum_sq (lsq_fvec out')) (of_int (N - len guesses')) in
  let error_of (cov : list (list F)) (w : F) (i : nat) :=
    match entry cov i i with
    | Some c => fpow (fabs (fmul c w)) (fconst 0.5)
    | None => fconst 0
    end in
  (exists errors,
     Powerlaw.fit_model leastsq values guesses (Array a0 :: rest)
     = Ok {| fit_p1 := lsq_x out; fit_errors := errors;
             fit_r2 := r_squared (lsq_fvec out) values;
             fit_cov := cov_or_zeros out |} /\
     length errors = length (lsq_x out) /\
     forall i, (i < length (lsq_x out))%nat ->
       nth_error errors i = Some (error_of (cov_or_zeros out) w i)) /\
  (exists errors,
     Murari.fit_model leastsq guesses' Ip R kappa P n B values
     = Ok {| fit_p1 := lsq_x out'; fit_errors := errors;
             fit_r2 := r_squared (lsq_fvec out') values;
             fit_cov := cov_or_zeros out' |} /\
     length errors = length (lsq_x out') /\
     forall i, (i < length (lsq_x out'))%nat ->
       nth_error errors i = Some (error_of (cov_or_zeros out') w' i)).
Proof.
  intros Hlen Hsmall HN Hout Hout' N w w' error_of.
  rewrite (powerlaw_fit_model_returns leastsq values guesses a0 rest out
                                      Hlen Hsmall Hout).
  rewrite (murari_fit_model_returns leastsq guesses' Ip R kappa P n B values
                                    out' Hout').
  assert (HN' : len a0 = N) by (unfold N, len; now rewrite HN).
  rewrite HN'. fold N.
  split; eexists; (split; [reflexivity | split]).
  - apply length_error_loop.
  - intros i Hi. now apply nth_error_error_loop.
  - apply length_error_loop.
  - intros i Hi. now apply nth_error_error_loop.
Qed.

Lemma C4_errors_from_scaled_covariance_witness :
  let out := {| lsq_x := [1; 2]%R; lsq_cov_x := Some [[4; 0]; [0]]%R;
                lsq_fvec := [3; 4; 5]%R; lsq_mesg := EmptyString;
                lsq_ier := 1%Z |} in
  let leastsq : solver R := fun _ _ _ => Ok out in
  let values := [10; 100; 1000]%R in
  let w := (sum_sq [3; 4; 5] / IZR (3 - 2))%R in
  exists errors r2 cov,
    Powerlaw.fit_model leastsq values [1; 1]%R [Array [2; 3; 4]%R]
    = Ok {| fit_p1 := [1; 2]%R; fit_errors := errors; fit_r2 := r2;
            fit_cov := cov |} /\
    nth_error errors 0 = Some (Rpow (Rabs (4 * w)) (Q2R 0.5)) /\
    nth_error errors 1 = Some (Q2R 0).
Proof.
  intros out leastsq values w.
  destruct (C4_errors_from_scaled_covariance
              leastsq values [1; 1]%R [2; 3; 4]%R [] out
              [1; 1]%R (Scalar 1%R) (Scalar 1%R) (Scalar 1%R)
              (Scalar 1%R) (Scalar 1%R) (Scalar 1%R) out)
    as ((errors & Hfit & _ & Herr) & _).
  - reflexivity.
  - cbn. lia.
  - reflexivity.
  - reflexivity.
  - reflexivity.
  - exists errors, (r_squared [3; 4; 5]%R values), [[4; 0]; [0]]%R.
    split; [exact Hfit | split].
    + apply (Herr 0%nat). cbn. lia.
    + apply (Herr 1%nat). cbn. lia.
Defined.

(** ** C8: the fit without a covariance estimate *)

Lemma map_seq_const {A : Type} (g : nat -> A) (c : A) (k : nat) :
  (forall i, (i < k)%nat -> g i = c) -> map g (seq 0 k) = repeat c k.
Proof.
  intros Hg.
  apply (nth_ext _ _ c c);
    [now rewrite length_map, length_seq, repeat_length |].
  intros i Hi. rewrite length_map, length_seq in Hi.
  rewrite nth_repeat, (nth_indep _ c (g 0%nat))
    by now rewrite length_map, length_seq.
  rewrite map_nth, seq_nth by assumption. now apply Hg.
Qed.

(** C8.  When the solver returns [None] for the covariance, both
    [fit_model]s still return: the covariance is the zero matrix with
    one row and one column per fitted parameter, and every error is
    computed from its zero entries. *)
Theorem C8_zero_covariance_fallback {F : Type} {num : Num F}
        (leastsq : solver F) (values guesses a0 : list F)
        (rest : list (value F)) (out : lsq_output F)
        (guesses' : list F) (Ip R kappa P n B : value F)
        (out' : lsq_output F) :
  len (Array a0 :: rest) = (len guesses - 1)%Z ->
  (length (Array a0 :: rest) <= 256)%nat ->
  leastsq Powerlaw.errfunct guesses ((Array a0 :: rest) ++ [Array values])
  = Ok out ->
  leastsq Murari.errfunct_star guesses' [Ip; R; kappa; P; n; B; Array values]
  = Ok out' ->
  lsq_cov_x out = None -> lsq_cov_x out' = None ->
  let k := length (lsq_x out) in
  let k' := length (lsq_x out') in
  let w := reduced_variance (lsq_fvec out) (len a0) (len guesses) in
  let w' := reduced_variance (lsq_fvec out') (len values) (len guesses') in
  (exists res,
     Powerlaw.fit_model leastsq values guesses (Array a0 :: rest) = Ok res /\
     fit_p1 res = lsq_x out /\
     fit_cov res = repeat (repeat (fconst 0) k) k /\
     fit_errors res
     = repeat (fpow (fabs (fmul (fconst 0) w)) (fconst 0.5)) k) /\
  (exists res,
     Murari.fit_model leastsq guesses' Ip R kappa P n B values = Ok res /\
     fit_p1 res = lsq_x out' /\
     fit_cov res = repeat (repeat (fconst 0) k') k' /\
     fit_errors res
     = repeat (fpow (fabs (fmul (fconst 0) w')) (fconst 0.5)) k').
Proof.
  intros Hlen Hsmall Hout Hout' Hnone Hnone' k k' w w'.
  rewrite (powerlaw_fit_model_returns leastsq values guesses a0 rest out
                                      Hlen Hsmall Hout).
  rewrite (murari_fit_model_returns leastsq guesses' Ip R kappa P n B values
                                    out' Hout').
  unfold cov_or_zeros. rewrite Hnone, Hnone'. fold k k' w w'.
  assert (Hzero : forall (p1 : list F) (v : F),
             error_loop (mscale (zeros (length p1) (length p1)) v) p1
             = repeat (fpow (fabs (fmul (fconst 0) v)) (fconst 0.5))
                      (length p1)).
  { intros p1 v. rewrite error_loop_sigma. apply map_seq_const.
    intros i Hi. unfold sigma. now rewrite entry_zeros. }
  split; eexists; cbn [fit_p1 fit_cov fit_errors];
    (split; [reflexivity | split; [reflexivity | split; [reflexivity |]]]);
    apply Hzero.
Qed.

Lemma C8_zero_covariance_fallback_witness :
  let out := {| lsq_x := [1; 2]%R; lsq_cov_x := None;
                lsq_fvec := [3; 4; 5]%R; lsq_mesg := EmptyString;
                lsq_ier := 1%Z |} in
  let leastsq : solver R := fun _ _ _ => Ok out in
  let values := [10; 100; 1000]%R in
  (exists res,
     Powerlaw.fit_model leastsq values [1; 1]%R [Array [2; 3; 4]%R] = Ok res /\
     fit_cov res = [[Q2R 0; Q2R 0]; [Q2R 0; Q2R 0]]) /\
  (exists res,
     Murari.fit_model leastsq [1; 1]%R (Scalar 1%R) (Scalar 1%R) (Scalar 1%R)
                      (Scalar 1%R) (Scalar 1%R) (Scalar 1%R) values = Ok res /\
     fit_cov res = [[Q2R 0; Q2R 0]; [Q2R 0; Q2R 0]]).
Proof.
  intros out leastsq values.
  destruct (C8_zero_covariance_fallback
              leastsq values [1; 1]%R [2; 3; 4]%R [] out
              [1; 1]%R (Scalar 1%R) (Scalar 1%R) (Scalar 1%R)
              (Scalar 1%R) (Scalar 1%R) (Scalar 1%R) out)
    as ((res & Hfit & _ & Hcov & _) & (res' & Hfit' & _ & Hcov' & _)).
  - reflexivity.
  - cbn. lia.
  - reflexivity.
  - reflexivity.
  - reflexivity.
  - reflexivity.
  - split; [exists res | exists res']; split; assumption.
Defined.

(** ** C10: the covariance that is returned *)

(** C10.  The fourth component of the result of either [fit_model] is
    the covariance as the solver gave it, or the zero matrix when it
    gave none; the covariance scaled by the reduced residual variance
    serves for the errors only. *)
Theorem C10_returned_covariance_is_unscaled {F : Type} {num : Num F}
        (leastsq : solver F) (values guesses a0 : list F)
        (rest : list (value F)) (out : lsq_output F)
        (guesses' : list F) (Ip R kappa P n B : value F)
        (out' : lsq_output F) :
  len (Array a0 :: rest) = (len guesses - 1)%Z ->
  (length (Array a0 :: rest) <= 256)%nat ->
  leastsq Powerlaw.errfunct guesses ((Array a0 :: rest) ++ [Array values])
  = Ok out ->
  leastsq Murari.errfunct_star guesses' [Ip; R; kappa; P; n; B; Array values]
  = Ok out' ->
  let raw (o : lsq_output F) :=
    match lsq_cov_x o with
    | Some c => c
    | None => repeat (repeat (fconst 0) (length (lsq_x o))) (length (lsq_x o))
    end in
  let w := fdiv (sum_sq (lsq_fvec out)) (of_int (len a0 - len guesses)) in
  let w' :=
    fdiv (sum_sq (lsq_fvec out')) (of_int (len values - len guesses')) in
  (exists res,
     Powerlaw.fit_model leastsq values guesses (Array a0 :: rest) = Ok res /\
     fit_cov res = raw out /\
     fit_errors res = error_loop (mscale (raw out) w) (lsq_x out)) /\
  (exists res,
     Murari.fit_model leastsq guesses' Ip R kappa P n B values = Ok res /\
     fit_cov res = raw out' /\
     fit_errors res = error_loop (mscale (raw out') w') (lsq_x out')).
Proof.
  intros Hlen Hsmall Hout Hout' raw w w'.
  rewrite (powerlaw_fit_model_returns leastsq values guesses a0 rest out
                                      Hlen Hsmall Hout).
  rewrite (murari_fit_model_returns leastsq guesses' Ip R kappa P n B values
                                    out' Hout').
  split; eexists; (split; [reflexivity | split; reflexivity]).
Qed.

(** A solver that reports the covariance [[1]]: that matrix comes
    back from both fits. *)
Lemma C10_returned_covariance_is_unscaled_witness :
  let out := {| lsq_x := [1]%R; lsq_cov_x := Some [[1]]%R;
                lsq_fvec := []%R; lsq_mesg := EmptyString;
                lsq_ier := 1%Z |} in
  let leastsq : solver R := fun _ _ _ => Ok out in
  let values := [10; 100; 1000]%R in
  (exists res,
     Powerlaw.fit_model leastsq values [1; 1]%R [Array [2; 3; 4]%R] = Ok res /\
     fit_cov res = [[1]]%R) /\
  (exists res,
     Murari.fit_model leastsq [1; 1]%R (Scalar 1%R) (Scalar 1%R) (Scalar 1%R)
                      (Scalar 1%R) (Scalar 1%R) (Scalar 1%R) values = Ok res /\
     fit_cov res = [[1]]%R).
Proof.
  intros out leastsq values.
  destruct (C10_returned_covariance_is_unscaled
              leastsq values [1; 1]%R [2; 3; 4]%R [] out
              [1; 1]%R (Scalar 1%R) (Scalar 1%R) (Scalar 1%R)
              (Scalar 1%R) (Scalar 1%R) (Scalar 1%R) out)
    as ((res & Hfit & Hcov & _) & (res' & Hfit' & Hcov' & _)).
  - reflexivity.
  - cbn. lia.
  - reflexivity.
  - reflexivity.
  - split; [exists res | exists res']; split; assumption.
Defined.

(** ** C9: no degrees of freedom *)

(** With as many samples as guesses the NPL fit divides the residual
    sum of squares by [0]: the operation is handed to numpy as it
    is. *)
Lemma murari_zero_degrees_of_freedom {F : Type} {num : Num F}
      (leastsq : solver F) (guesses : list F) (Ip R kappa P n B : value F)
      (values : list F) (out : lsq_output F) :
  len values = len guesses ->
  leastsq Murari.errfunct_star guesses [Ip; R; kappa; P; n; B; Array values]
  = Ok out ->
  exists res,
    Murari.fit_model leastsq guesses Ip R kappa P n B values = Ok res /\
    fit_errors res
    = error_loop (mscale (cov_or_zeros out)
                         (fdiv (sum_sq (lsq_fvec out)) (of_int 0)))
                 (lsq_x out).
Proof.
  intros HN Hout.
  rewrite (murari_fit_model_returns leastsq guesses Ip R kappa P n B values
                                    out Hout).
  eexists. split; [reflexivity |]. cbn [fit_errors].
  unfold reduced_variance. now rewrite HN, Z.sub_diag.
Qed.

(** The residual of a fit of the scale factor alone is defined: the
    solver has an objective to work with. *)
Lemma errfunct_scale_only {F : Type} {num : Num F} (c : F) (values : list F) :
  Powerlaw.errfunct [c] [Array values]
  = Ok (Array (map (fun v => fsub v (flog10 c)) (map flog10 values))).
Proof. reflexivity. Qed.

(** C9.  A power-law fit of the scale factor alone (one guess, no
    independent variable) to one sample has no degree of freedom.  Its
    arity check passes and the solver is called, and when the solver
    returns, the error stage raises [IndexError] on [args[0]]. *)
Theorem C9_powerlaw_error_stage_raises {F : Type} {num : Num F}
        (leastsq : solver F) (values : list F) (c : F)
        (out : lsq_output F) :
  len values = len [c] ->
  leastsq Powerlaw.errfunct [c] [Array values] = Ok out ->
  Powerlaw.fit_model leastsq values [c] [] = Raise IndexError.
Proof.
  intros _ Hout. unfold Powerlaw.fit_model.
  cbn [len length Z.of_nat Z.sub Z.opp Z.add Z.pos_sub app].
  change (py_is_not 0 0) with false. cbv iota.
  now rewrite Hout.
Qed.

Lemma C9_powerlaw_error_stage_raises_witness :
  let out := {| lsq_x := [3]%R; lsq_cov_x := Some [[1]]%R;
                lsq_fvec := [0]%R; lsq_mesg := EmptyString;
                lsq_ier := 1%Z |} in
  Powerlaw.fit_model (fun _ _ _ => Ok out) [3]%R [2]%R [] = Raise IndexError.
Proof.
  intros out.
  apply (C9_powerlaw_error_stage_raises (fun _ _ _ => Ok out) [3]%R 2%R out).
  - reflexivity.
  - reflexivity.
Defined.

(** * Further properties of the model functions *)

(** ** Which exceptions the power-law functions raise *)

Lemma py_is_not_false (a b : Z) :
  py_is_not a b = false -> a = b /\ (-5 <= a <= 256)%Z.
Proof.
  unfold py_is_not, py_is, small_int. intros H.
  apply negb_false_iff in H.
  apply andb_true_iff in H as [Heq Hsmall].
  apply andb_true_iff in Hsmall as [Hlo Hhi].
  apply Z.eqb_eq in Heq. apply Z.leb_le in Hlo. apply Z.leb_le in Hhi.
  auto.
Qed.

Section PowerlawExceptions.
Context {F : Type} {num : Num F}.
Implicit Types (param : list F) (args : list (value F)).

Lemma logmodel_raises_value_error param args (e : exn) :
  Powerlaw.logmodel param args = Raise e -> exists msg, e = ValueError msg.
Proof.
  intros Hraise.
  destruct (py_is_not (len args) (len param - 1)) eqn:Hcheck.
  - unfold Powerlaw.logmodel in Hraise. rewrite Hcheck in Hraise.
    injection Hraise as <-. eauto.
  - apply py_is_not_false in Hcheck as [Heq Hsmall].
    destruct param as [| p0 ps]; [unfold len in Heq; cbn in Heq; lia |].
    rewrite logmodel_loop in Hraise
      by (unfold len in *; cbn [length] in *; lia).
    apply foldM_raises
      with (shape := fun e => exists msg, e = ValueError msg) in Hraise;
      [assumption |].
    intros pa acc e' H. apply iop_raises in H as [-> | ->]; eauto.
Qed.

Lemma linmodel_raises_value_error param args (e : exn) :
  Powerlaw.linmodel param args = Raise e -> exists msg, e = ValueError msg.
Proof.
  intros Hraise.
  destruct (py_is_not (len args) (len param - 1)) eqn:Hcheck.
  - unfold Powerlaw.linmodel in Hraise. rewrite Hcheck in Hraise.
    injection Hraise as <-. eauto.
  - apply py_is_not_false in Hcheck as [Heq Hsmall].
    destruct param as [| p0 ps]; [unfold len in Heq; cbn in Heq; lia |].
    rewrite linmodel_loop in Hraise
      by (unfold len in *; cbn [length] in *; lia).
    apply foldM_raises
      with (shape := fun e => exists msg, e = ValueError msg) in Hraise;
      [assumption |].
    intros pa acc e' H. apply bop_raises in H as ->. eauto.
Qed.

End PowerlawExceptions.

(** X1.  With at most 256 variable arguments, [logmodel] and [linmodel]
    raise the arity error exactly when the number of arguments differs
    from [len(param) - 1]. *)
Theorem X1_model_arity_check_exact {F : Type} {num : Num F}
        (param : list F) (args : list (value F)) :
  (length args <= 256)%nat ->
  (Powerlaw.logmodel param args = Raise (ValueError count_msg)
   <-> len args <> (len param - 1)%Z) /\
  (Powerlaw.linmodel param args = Raise (ValueError count_msg)
   <-> len args <> (len param - 1)%Z).
Proof.
  intros Hsmall. split.
  - now apply logmodel_check_small.
  - now apply linmodel_check_small.
Qed.

Lemma X1_model_arity_check_exact_witness :
  Powerlaw.logmodel [2; 1.5; 3]%R [Scalar 10%R] = Raise (ValueError count_msg)
  <-> len [Scalar 10%R] <> (len [2; 1.5; 3]%R - 1)%Z.
Proof.
  apply (X1_model_arity_check_exact [2; 1.5; 3]%R [Scalar 10%R]).
  cbn. lia.
Defined.

(** X2.  With at most 256 positional arguments, [errfunct] raises the
    arity error exactly when their number differs from [len(param)]. *)
Theorem X2_errfunct_arity_check_exact {F : Type} {num : Num F}
        (param : list F) (args : list (value F)) :
  (length args <= 256)%nat ->
  Powerlaw.errfunct param args = Raise (ValueError count_msg)
  <-> len args <> len param.
Proof. apply errfunct_check_small. Qed.

Lemma X2_errfunct_arity_check_exact_witness :
  Powerlaw.errfunct [2; 1.5]%R [Scalar 10%R] = Raise (ValueError count_msg)
  <-> len [Scalar 10%R] <> len [2; 1.5]%R.
Proof.
  apply (X2_errfunct_arity_check_exact [2; 1.5]%R [Scalar 10%R]).
  cbn. lia.
Defined.

(** X3.  Once the arity check of [logmodel] or [linmodel] has passed,
    every lookup [param[0]], [param[i+1]] and [args[i]] of the loop is
    in range: neither function raises [IndexError].  On numpy operands,
    whose arithmetic does not raise, the exceptions of [logmodel] are
    the arity error and the two shape errors of numpy, and those of
    [linmodel] the arity error and the broadcast error. *)
Theorem X3_models_raise_only_value_error {F : Type} {num : Num F}
        (param : list F) (args : list (value F)) (e : exn) :
  (Powerlaw.logmodel param args = Raise e ->
   e = ValueError count_msg \/ e = ValueError broadcast_msg \/
   e = ValueError output_msg) /\
  (Powerlaw.linmodel param args = Raise e ->
   e = ValueError count_msg \/ e = ValueError broadcast_msg).
Proof.
  split; intros Hraise.
  - destruct (py_is_not (len args) (len param - 1)) eqn:Hcheck.
    + unfold Powerlaw.logmodel in Hraise. rewrite Hcheck in Hraise.
      injection Hraise as <-. auto.
    + apply py_is_not_false in Hcheck as [Heq Hsmall].
      destruct param as [| p0 ps]; [unfold len in Heq; cbn in Heq; lia |].
      rewrite logmodel_loop in Hraise
        by (unfold len in *; cbn [length] in *; lia).
      right.
      apply foldM_raises
        with (shape := fun e => e = ValueError broadcast_msg \/
                                e = ValueError output_msg) in Hraise;
        [assumption |].
      intros pa acc e'. apply iop_raises.
  - destruct (py_is_not (len args) (len param - 1)) eqn:Hcheck.
    + unfold Powerlaw.linmodel in Hraise. rewrite Hcheck in Hraise.
      injection Hraise as <-. auto.
    + apply py_is_not_false in Hcheck as [Heq Hsmall].
      destruct param as [| p0 ps]; [unfold len in Heq; cbn in Heq; lia |].
      rewrite linmodel_loop in Hraise
        by (unfold len in *; cbn [length] in *; lia).
      right.
      apply foldM_raises
        with (shape := fun e => e = ValueError broadcast_msg) in Hraise;
        [assumption |].
      intros pa acc e'. apply bop_raises.
Qed.

(** X4.  [errfunct] raises [IndexError] in one case only: no
    parameters and no arguments, where the arity check passes and
    [args[-1]] does not exist. *)
Theorem X4_errfunct_index_error_iff_empty {F : Type} {num : Num F}
        (param : list F) (args : list (value F)) :
  Powerlaw.errfunct param args = Raise IndexError
  <-> param = [] /\ args = [].
Proof.
  split.
  - intros Hraise.
    destruct (py_is_not (len args) (len param)) eqn:Hcheck.
    + unfold Powerlaw.errfunct in Hraise. rewrite Hcheck in Hraise.
      discriminate.
    + apply py_is_not_false in Hcheck as [Heq Hsmall].
      destruct args as [| a args'].
      * destruct param; [auto | unfold len in Heq; cbn in Heq; lia].
      * exfalso.
        destruct (exists_last (l := a :: args')) as (xs & ydata & Hsplit);
          [discriminate |].
        rewrite Hsplit in *.
        rewrite errfunct_residual in Hraise by (unfold len in *; lia).
        destruct (Powerlaw.logmodel param xs) as [m | e] eqn:Hm;
          cbn [bind] in Hraise.
        -- apply bop_raises in Hraise. discriminate.
        -- injection Hraise as ->.
           apply logmodel_raises_value_error in Hm as [msg Hmsg].
           discriminate.
  - intros [-> ->]. reflexivity.
Qed.

(** ** Values and shapes of the power-law functions *)

(** X5.  For any floating-point operations: with at most 256 inputs,
    one per exponent, each a scalar or an array of [N] samples,
    [logmodel] and [linmodel] return; the result is a scalar when every
    input is one and an array of [N] samples otherwise, and at each
    sample it is the log-linear form, respectively the product form,
    accumulated from left to right. *)
Theorem X5_models_sample_by_sample {F : Type} {num : Num F} (N : nat)
        (p0 : F) (ps : list F) (args : list (value F)) :
  length ps = length args -> (length args <= 256)%nat ->
  Forall (conforms N) args ->
  exists l v,
    Powerlaw.logmodel (p0 :: ps) args = Ok l /\
    Powerlaw.linmodel (p0 :: ps) args = Ok v /\
    conforms N l /\ conforms N v /\
    is_scalar l = forallb is_scalar args /\
    is_scalar v = forallb is_scalar args /\
    forall j, (j < N)%nat ->
      vnth l j = log_form p0 ps (samples args j) /\
      vnth v j = lin_form p0 ps (samples args j).
Proof.
  intros Hlen Hsmall Hargs.
  destruct (logmodel_spec N p0 ps args Hlen Hsmall Hargs)
    as (l & Hl & Hlconf & Hlkind & Hlpt).
  destruct (linmodel_spec N p0 ps args Hlen Hsmall Hargs)
    as (v & Hv & Hvconf & Hvkind & Hvpt).
  exists l, v. repeat split; auto.
Qed.

Lemma X5_models_sample_by_sample_witness :
  exists l v,
    Powerlaw.logmodel [2; 1.5; 3]%R [Array [10; 20]%R; Scalar 4%R] = Ok l /\
    Powerlaw.linmodel [2; 1.5; 3]%R [Array [10; 20]%R; Scalar 4%R] = Ok v /\
    is_scalar l = false /\ is_scalar v = false /\
    vnth l 1 = log_form 2%R [1.5; 3]%R [20; 4]%R /\
    vnth v 1 = lin_form 2%R [1.5; 3]%R [20; 4]%R.
Proof.
  destruct (X5_models_sample_by_sample
              2 2%R [1.5; 3]%R [Array [10; 20]%R; Scalar 4%R])
    as (l & v & Hl & Hv & _ & _ & Hlk & Hvk & Hpt).
  - reflexivity.
  - cbn. lia.
  - repeat constructor.
  - exists l, v. destruct (Hpt 1%nat (Nat.lt_succ_diag_r 1)) as [H1 H2].
    repeat split; assumption.
Defined.

(** X6.  For any floating-point operations: with at most 256
    positional arguments, as many as parameters, each a scalar or an
    array of [N] samples, [errfunct] returns, and at every sample its
    result is [log10(ydata)] minus the log-linear form of the other
    arguments; it is a scalar only when every argument is one. *)
Theorem X6_errfunct_sample_by_sample {F : Type} {num : Num F} (N : nat)
        (p0 : F) (ps : list F) (xs : list (value F)) (ydata : value F) :
  len (xs ++ [ydata]) = len (p0 :: ps) ->
  (length (xs ++ [ydata]) <= 256)%nat ->
  Forall (conforms N) xs -> conforms N ydata ->
  exists r,
    Powerlaw.errfunct (p0 :: ps) (xs ++ [ydata]) = Ok r /\
    conforms N r /\
    is_scalar r = forallb is_scalar (xs ++ [ydata]) /\
    forall j, (j < N)%nat ->
      vnth r j = fsub (flog10 (vnth ydata j)) (log_form p0 ps (samples xs j)).
Proof.
  intros Hlen Hsmall Hxs Hy.
  assert (Hlen' : length ps = length xs).
  { unfold len in Hlen. rewrite length_app in Hlen. cbn [length] in Hlen. lia. }
  assert (Hsmall' : (length xs <= 256)%nat).
  { rewrite length_app in Hsmall. lia. }
  rewrite errfunct_residual by assumption.
  destruct (logmodel_spec N p0 ps xs Hlen' Hsmall' Hxs)
    as (m & Hm & Hmconf & Hmkind & Hmpt).
  rewrite Hm. cbn [bind].
  destruct (bop_spec fsub N (vmap flog10 ydata) m)
    as (r & Hr & Hrconf & Hrkind & Hrpt);
    [now apply vmap_conforms | assumption |].
  exists r. repeat split; try assumption.
  - rewrite Hrkind, vmap_is_scalar, Hmkind, forallb_app. cbn [forallb].
    now rewrite andb_true_r, andb_comm.
  - intros j Hj. rewrite Hrpt, (vnth_vmap flog10 N), Hmpt by assumption.
    reflexivity.
Qed.

Lemma X6_errfunct_sample_by_sample_witness :
  exists r,
    Powerlaw.errfunct [2; 1.5]%R [Array [10; 20]%R; Array [5; 7]%R] = Ok r /\
    vnth r 1 = (Rlog10 7 - log_form 2 [1.5] [20])%R.
Proof.
  destruct (X6_errfunct_sample_by_sample
              2 2%R [1.5]%R [Array [10; 20]%R] (Array [5; 7]%R))
    as (r & Hr & _ & _ & Hpt).
  - reflexivity.
  - cbn. lia.
  - repeat constructor.
  - reflexivity.
  - exists r. split; [exact Hr |]. apply (Hpt 1%nat). lia.
Defined.

(** X7.  The two models treat arrays of unequal length differently.
    Given an array of one sample followed by an array of another
    length, [linmodel] broadcasts and returns one value per sample of
    the second array, while [logmodel], which accumulates in place with
    [+=], raises a [ValueError]. *)
Theorem X7_models_differ_on_unequal_arrays {F : Type} {num : Num F}
        (p0 p1 p2 x : F) (ys : list F) :
  length ys <> 1%nat ->
  Powerlaw.logmodel [p0; p1; p2] [Array [x]; Array ys]
  = Raise (ValueError output_msg) /\
  exists v, Powerlaw.linmodel [p0; p1; p2] [Array [x]; Array ys]
            = Ok (Array v) /\ length v = length ys.
Proof.
  intros Hys.
  destruct ys as [| y [| y' ys]]; [| contradiction Hys; reflexivity |].
  - split; [reflexivity |]. eexists. split; reflexivity.
  - split; [reflexivity |]. eexists. split; [reflexivity |].
    now rewrite !length_map.
Qed.

Lemma X7_models_differ_on_unequal_arrays_witness :
  Powerlaw.logmodel [2; 1; 1]%R [Array [10]%R; Array [10; 100; 1000]%R]
  = Raise (ValueError output_msg) /\
  exists v, Powerlaw.linmodel [2; 1; 1]%R
                              [Array [10]%R; Array [10; 100; 1000]%R]
            = Ok (Array v) /\ length v = 3%nat.
Proof.
  apply (X7_models_differ_on_unequal_arrays 2%R 1%R 1%R 10%R [10; 100; 1000]%R).
  cbn. lia.
Defined.

(** ** The power-law functions in exact real arithmetic *)


(** X8.  In exact real arithmetic, for a positive scale factor and
    positive inputs, the value of [linmodel] is strictly positive at
    every sample. *)
Theorem X8_linmodel_positive (N : nat) (p0 : R) (ps : list R)
        (xs : list (value R)) :
  (0 < p0)%R -> Forall positive xs -> Forall (conforms N) xs ->
  length ps = length xs -> (length xs <= 256)%nat ->
  exists v, Powerlaw.linmodel (p0 :: ps) xs = Ok v /\
            forall j, (j < N)%nat -> (0 < vnth v j)%R.
Proof.
  intros Hp0 Hpos Hconf Hlen Hsmall.
  destruct (linmodel_pow10_small N p0 ps xs Hp0 Hpos Hconf Hlen Hsmall)
    as (l & v & _ & Hv & _ & Hpt).
  exists v. split; [assumption |].
  intros j Hj. destruct (Hpt j Hj) as (_ & _ & ->).
  apply Rpow_gt_0. lra.
Qed.

Lemma X8_linmodel_positive_witness :
  exists v, Powerlaw.linmodel [2; 1.5]%R [Array [10; 20]%R] = Ok v /\
            forall j, (j < 2)%nat -> (0 < vnth v j)%R.
Proof.
  apply (X8_linmodel_positive 2 2%R [1.5%R] [Array [10; 20]%R]).
  - lra.
  - repeat constructor; lra.
  - repeat constructor.
  - reflexivity.
  - cbn. lia.
Defined.



(** ** The parameter list of the non-power-law model *)

(** X10.  [NPL] needs eight parameters.  With at most five it raises
    [IndexError] for all inputs: [hparams[0]] is looked up in the empty
    [params[5:]] before any arithmetic.  With six or seven, on numpy
    operands (whose arithmetic does not raise) and density and field
    that broadcast, it raises [IndexError] as well, from [hparams[1]]
    or [hparams[2]], whatever the other inputs are. *)
Theorem X10_NPL_short_parameter_list {F : Type} {num : Num F} (N : nat)
        (params : list F) (Ip R kappa P n B : value F) :
  ((length params <= 5)%nat ->
   Murari.NPL params Ip R kappa P n B = Raise IndexError) /\
  ((length params < 8)%nat -> conforms N n -> conforms N B ->
   Murari.NPL params Ip R kappa P n B = Raise IndexError).
Proof.
  split.
  - intros Hlen. unfold Murari.NPL, Murari.hfactor.
    do 6 (destruct params as [| ? params]; [reflexivity |]).
    cbn [length] in Hlen. lia.
  - intros Hlen Hn HB.
    destruct (bop_spec fdiv N n B Hn HB) as (q & Hq & _).
    unfold Murari.NPL, Murari.hfactor.
    do 8 (destruct params as [| ? params];
          [cbn -[bop]; rewrite ?Hq; reflexivity |]).
    cbn [length] in Hlen. lia.
Qed.

Lemma X10_NPL_short_parameter_list_witness :
  Murari.NPL [7; 1; 2; 3; 1; 2; 1]%R (Scalar 2%R) (Scalar 3%R)
             (Scalar 2%R) (Scalar 6%R) (Array [4; 8]%R) (Array [5; 5]%R)
  = Raise IndexError.
Proof.
  apply (proj2 (X10_NPL_short_parameter_list
                  2 [7; 1; 2; 3; 1; 2; 1]%R (Scalar 2%R) (Scalar 3%R)
                  (Scalar 2%R) (Scalar 6%R) (Array [4; 8]%R)
                  (Array [5; 5]%R))).
  - cbn. lia.
  - reflexivity.
  - reflexivity.
Defined.

(** X11.  [NPL] reads its first eight parameters only, and [hfactor]
    its first three: further entries do not change the result or the
    exception, whatever the inputs. *)
Theorem X11_NPL_ignores_further_parameters {F : Type} {num : Num F}
        (params extra : list F) (Ip R kappa P n B : value F) :
  length params = 8%nat ->
  Murari.NPL (params ++ extra) Ip R kappa P n B
  = Murari.NPL params Ip R kappa P n B /\
  Murari.hfactor (skipn 5 params ++ extra) n B
  = Murari.hfactor (skipn 5 params) n B.
Proof.
  intros Hlen.
  do 8 (destruct params as [| ? params]; [discriminate |]).
  destruct params; [| discriminate].
  split; reflexivity.
Qed.

Lemma X11_NPL_ignores_further_parameters_witness :
  Murari.NPL ([7; 1; 2; 3; 1; 2; 1; 3] ++ [9; 9])%R (Scalar 2%R) (Scalar 3%R)
             (Scalar 2%R) (Scalar 6%R) (Scalar 4%R) (Scalar 5%R)
  = Murari.NPL [7; 1; 2; 3; 1; 2; 1; 3]%R (Scalar 2%R) (Scalar 3%R)
               (Scalar 2%R) (Scalar 6%R) (Scalar 4%R) (Scalar 5%R).
Proof.
  apply (X11_NPL_ignores_further_parameters
           [7; 1; 2; 3; 1; 2; 1; 3]%R [9; 9]%R).
  reflexivity.
Defined.

(** ** The non-power-law model in exact real arithmetic *)

(** [NPL] on conforming inputs, sample by sample. *)
Lemma NPL_spec {F : Type} {num : Num F} (N : nat) (params : list F)
      (Ip R kappa P n B : value F) :
  (8 <= length params)%nat ->
  conforms N Ip -> conforms N R -> conforms N kappa -> conforms N P ->
  conforms N n -> conforms N B ->
  exists v,
    Murari.NPL params Ip R kappa P n B = Ok v /\
    conforms N v /\
    forall j, (j < N)%nat ->
      vnth v j
      = NPL_form (nth 0 params (of_int 0)) (nth 1 params (of_int 0))
                 (nth 2 params (of_int 0)) (nth 3 params (of_int 0))
                 (nth 4 params (of_int 0))
                 (vnth Ip j) (vnth R j) (vnth kappa j) (vnth P j)
                 (hfactor_form (nth 5 params (of_int 0))
                               (nth 6 params (of_int 0))
                               (nth 7 params (of_int 0))
                               (vnth n j) (vnth B j)).
Proof.
  intros Hlen HIp HR Hk HP Hn HB.
  destruct (hfactor_spec N (skipn 5 params) n B (of_int 0))
    as (h & Hh & Hhconf & _ & Hhpt);
    [rewrite length_skipn; lia | assumption | assumption |].
  unfold Murari.NPL. rewrite Hh. cbn [bind].
  change (index params 0) with (index params (Z.of_nat 0)).
  change (index params 1) with (index params (Z.of_nat 1)).
  change (index params 2) with (index params (Z.of_nat 2)).
  change (index params 3) with (index params (Z.of_nat 3)).
  change (index params 4) with (index params (Z.of_nat 4)).
  rewrite !(fun i => index_in params i (of_int 0)) by lia. cbn [bind].
  set (a := fun i => nth i params (of_int 0)).
  fold (a 0%nat) (a 1%nat) (a 2%nat) (a 3%nat) (a 4%nat).
  set (t1 := vmap (fmul (a 0%nat)) (vmap (fun x => fpow x (a 1%nat)) Ip)).
  assert (Ht1 : conforms N t1) by (unfold t1; auto using vmap_conforms).
  destruct (bop_spec fmul N t1 (vmap (fun x => fpow x (a 2%nat)) R))
    as (t2 & Ht2 & Ht2conf & _ & Ht2pt); auto using vmap_conforms.
  rewrite Ht2. cbn [bind].
  destruct (bop_spec fmul N t2 (vmap (fun x => fpow x (a 3%nat)) kappa))
    as (t3 & Ht3 & Ht3conf & _ & Ht3pt); auto using vmap_conforms.
  rewrite Ht3. cbn [bind].
  destruct (bop_spec fmul N t3 (vmap (fun x => fpow x (a 4%nat)) P))
    as (t4 & Ht4 & Ht4conf & _ & Ht4pt); auto using vmap_conforms.
  rewrite Ht4. cbn [bind].
  destruct (bop_spec fmul N t4 h) as (v & Hv & Hvconf & _ & Hvpt); auto.
  exists v. split; [assumption | split; [assumption |]].
  intros j Hj.
  rewrite (Hvpt j Hj), (Ht4pt j Hj), (Ht3pt j Hj), (Ht2pt j Hj), (Hhpt j Hj).
  unfold t1, NPL_form.
  repeat (rewrite (vnth_vmap _ N); auto using vmap_conforms).
  now rewrite !nth_skipn.
Qed.

Section SuppressionBounds.
Local Open Scope R_scope.

Lemma hfactor_form_bounds (h0 h1 h2 n B : R) :
  0 < n -> 0 < B ->
  0 < hfactor_form h0 h1 h2 n B < Rpow n h0.
Proof.
  intros Hn HB. rewrite hfactor_form_pos, (Rpow_pos n h0 Hn) by assumption.
  set (e := exp (h1 * Rpower (n / B) h2)).
  assert (He : 0 < e) by apply exp_pos.
  assert (Hp : 0 < Rpower n h0) by apply exp_pos.
  assert (Hinv : 0 < / (1 + e) < 1).
  { split; [apply Rinv_0_lt_compat; lra |].
    rewrite <- Rinv_1 at 2. apply Rinv_lt_contravar; lra. }
  split; nra.
Qed.

Lemma hfactor_form_half (h0 h2 n B : R) :
  0 < n -> 0 < B ->
  hfactor_form h0 0 h2 n B = Rpow n h0 / 2.
Proof.
  intros Hn HB. rewrite hfactor_form_pos, (Rpow_pos n h0 Hn) by assumption.
  rewrite Rmult_0_l, exp_0. lra.
Qed.

Lemma NPL_form_pos (c a1 a2 a3 a4 Ip Rm kappa P h : R) :
  0 < c -> 0 < Ip -> 0 < Rm -> 0 < kappa -> 0 < P -> 0 < h ->
  0 < NPL_form c a1 a2 a3 a4 Ip Rm kappa P h.
Proof.
  intros Hc HIp HR Hk HP Hh. unfold NPL_form. cbn [fmul fpow R_num].
  repeat apply Rmult_lt_0_compat; auto using Rpow_gt_0.
Qed.

End SuppressionBounds.

(** X12.  In exact real arithmetic, for positive density and field,
    the suppression term lies strictly between [0] and the pure power
    [n ** hparams[0]], at every sample. *)
Theorem X12_hfactor_between_zero_and_power (N : nat) (hparams : list R)
        (n B : value R) :
  (3 <= length hparams)%nat ->
  positive n -> positive B -> conforms N n -> conforms N B ->
  exists h,
    Murari.hfactor hparams n B = Ok h /\
    forall j, (j < N)%nat ->
      (0 < vnth h j < Rpow (vnth n j) (nth 0 hparams 0))%R.
Proof.
  intros Hlen Hnpos HBpos Hn HB.
  destruct (hfactor_spec N hparams n B 0%R Hlen Hn HB)
    as (h & Hh & _ & _ & Hpt).
  exists h. split; [assumption |].
  intros j Hj. rewrite (Hpt j Hj).
  apply hfactor_form_bounds; now apply (positive_vnth N).
Qed.

Lemma X12_hfactor_between_zero_and_power_witness :
  exists h,
    Murari.hfactor [2; 1; 3]%R (Array [4; 8]%R) (Scalar 5%R) = Ok h /\
    forall j, (j < 2)%nat ->
      (0 < vnth h j < Rpow (vnth (Array [4; 8]%R) j) 2)%R.
Proof.
  apply (X12_hfactor_between_zero_and_power
           2 [2; 1; 3]%R (Array [4; 8]%R) (Scalar 5%R)).
  - cbn. lia.
  - repeat constructor; lra.
  - cbn. lra.
  - reflexivity.
  - exact I.
Defined.

(** X13.  In exact real arithmetic, with [hparams[1] == 0] the
    suppression term is one half of [n ** hparams[0]] for every
    positive density and field, whatever [hparams[2]] is. *)
Theorem X13_hfactor_half_at_zero (N : nat) (h0 h2 : R) (n B : value R) :
  positive n -> positive B -> conforms N n -> conforms N B ->
  exists h,
    Murari.hfactor [h0; 0%R; h2] n B = Ok h /\
    forall j, (j < N)%nat -> vnth h j = (Rpow (vnth n j) h0 / 2)%R.
Proof.
  intros Hnpos HBpos Hn HB.
  destruct (hfactor_spec N [h0; 0%R; h2] n B 0%R)
    as (h & Hh & _ & _ & Hpt); [cbn; lia | assumption | assumption |].
  exists h. split; [assumption |].
  intros j Hj. rewrite (Hpt j Hj). cbn [nth].
  apply hfactor_form_half; now apply (positive_vnth N).
Qed.

Lemma X13_hfactor_half_at_zero_witness :
  exists h,
    Murari.hfactor [2; 0; 3]%R (Scalar 4%R) (Scalar 5%R) = Ok h /\
    forall j, (j < 1)%nat -> vnth h j = (Rpow 4 2 / 2)%R.
Proof.
  apply (X13_hfactor_half_at_zero 1 2%R 3%R (Scalar 4%R) (Scalar 5%R)).
  - cbn. lra.
  - cbn. lra.
  - exact I.
  - exact I.
Defined.

(** X14.  In exact real arithmetic, for a positive scale factor and
    positive inputs, the confinement time computed by [NPL] is strictly
    positive at every sample. *)
Theorem X14_NPL_positive (N : nat) (params : list R)
        (Ip Rm kappa P n B : value R) :
  (8 <= length params)%nat -> (0 < nth 0 params 0)%R ->
  positive Ip -> positive Rm -> positive kappa -> positive P ->
  positive n -> positive B ->
  conforms N Ip -> conforms N Rm -> conforms N kappa -> conforms N P ->
  conforms N n -> conforms N B ->
  exists v,
    Murari.NPL params Ip Rm kappa P n B = Ok v /\
    forall j, (j < N)%nat -> (0 < vnth v j)%R.
Proof.
  intros Hlen Hc pIp pR pk pP pn pB cIp cR ck cP cn cB.
  destruct (NPL_spec N params Ip Rm kappa P n B Hlen cIp cR ck cP cn cB)
    as (v & Hv & _ & Hpt).
  exists v. split; [assumption |].
  intros j Hj. rewrite (Hpt j Hj).
  apply NPL_form_pos; try (now apply (positive_vnth N)); try assumption.
  apply hfactor_form_bounds; now apply (positive_vnth N).
Qed.

Lemma X14_NPL_positive_witness :
  exists v,
    Murari.NPL [7; 1; 2; 3; 1; 2; 1; 3]%R (Scalar 2%R) (Scalar 3%R)
               (Scalar 2%R) (Scalar 6%R) (Scalar 4%R) (Scalar 5%R) = Ok v /\
    forall j, (j < 1)%nat -> (0 < vnth v j)%R.
Proof.
  apply (X14_NPL_positive 1 [7; 1; 2; 3; 1; 2; 1; 3]%R).
  - cbn. lia.
  - cbn. lra.
  - cbn. lra.
  - cbn. lra.
  - cbn. lra.
  - cbn. lra.
  - cbn. lra.
  - cbn. lra.
  - exact I.
  - exact I.
  - exact I.
  - exact I.
  - exact I.
  - exact I.
Defined.

Lemma bop_minus_self (v : value R) :
  bop Rminus v v = Ok (vmap (fun _ => 0%R) v).
Proof.
  destruct v as [x | xs]; cbn [bop vmap].
  - f_equal. f_equal. lra.
  - rewrite Nat.eqb_refl. f_equal. f_equal. unfold zip_with.
    induction xs as [| x xs IH]; cbn; [reflexivity |].
    rewrite IH. f_equal. lra.
Qed.

(** X15.  In exact real arithmetic, the residual of the NPL fit
    vanishes on data generated by the model: when [NPL] returns [tau],
    [errfunct] with that [tau] as the measurement returns zeros of the
    same shape. *)
Theorem X15_NPL_errfunct_zero_on_model_data
        (params : list R) (Ip Rm kappa P n B tau : value R) :
  Murari.NPL params Ip Rm kappa P n B = Ok tau ->
  Murari.errfunct params Ip Rm kappa P n B tau
  = Ok (vmap (fun _ => 0%R) tau).
Proof.
  intros Htau. unfold Murari.errfunct. rewrite Htau. cbn [bind].
  apply bop_minus_self.
Qed.

Lemma X15_NPL_errfunct_zero_on_model_data_witness :
  exists tau,
    Murari.NPL [7; 1; 2; 3; 1; 2; 1; 3]%R (Scalar 2%R) (Scalar 3%R)
               (Scalar 2%R) (Scalar 6%R) (Array [4; 8]%R) (Scalar 5%R)
    = Ok tau /\
    Murari.errfunct [7; 1; 2; 3; 1; 2; 1; 3]%R (Scalar 2%R) (Scalar 3%R)
                    (Scalar 2%R) (Scalar 6%R) (Array [4; 8]%R) (Scalar 5%R)
                    tau
    = Ok (vmap (fun _ => 0%R) tau).
Proof.
  eexists. split.
  - reflexivity.
  - apply X15_NPL_errfunct_zero_on_model_data. reflexivity.
Defined.

(** ** Further properties of the two fits *)

(** X16.  The power-law [fit_model] takes the sample count from
    [len(args[0])]: when the first independent variable is a scalar,
    which the model functions accept, the fit raises [TypeError] after
    the solver has returned. *)
Theorem X16_powerlaw_fit_scalar_first_variable {F : Type} {num : Num F}
        (leastsq : solver F) (values guesses : list F) (x : F)
        (rest : list (value F)) (out : lsq_output F) :
  len (Scalar x :: rest) = (len guesses - 1)%Z ->
  (length (Scalar x :: rest) <= 256)%nat ->
  leastsq Powerlaw.errfunct guesses ((Scalar x :: rest) ++ [Array values])
  = Ok out ->
  Powerlaw.fit_model leastsq values guesses (Scalar x :: rest)
  = Raise TypeError.
Proof.
  intros Hlen Hsmall Hout. unfold Powerlaw.fit_model.
  rewrite py_is_not_small by (unfold len; lia).
  rewrite Hlen, Z.eqb_refl. cbn [negb].
  now rewrite Hout.
Qed.

Lemma X16_powerlaw_fit_scalar_first_variable_witness :
  let out := {| lsq_x := [1; 2]%R; lsq_cov_x := None;
                lsq_fvec := [3; 4; 5]%R; lsq_mesg := EmptyString;
                lsq_ier := 1%Z |} in
  Powerlaw.fit_model (fun _ _ _ => Ok out) [10; 100; 1000]%R [1; 1]%R
                     [Scalar 2%R]
  = Raise TypeError.
Proof.
  intros out.
  apply (X16_powerlaw_fit_scalar_first_variable
           (fun _ _ _ => Ok out) [10; 100; 1000]%R [1; 1]%R 2%R [] out).
  - reflexivity.
  - cbn. lia.
  - reflexivity.
Defined.

(** X17.  When the solver returns the same output to both fits, the
    first independent variable of the power-law fit is an array of as
    many samples as [values], and the two lists of guesses are equally
    long, the two [fit_model]s return the same tuple: their statistics
    are the same computation. *)
Theorem X17_fits_share_their_statistics {F : Type} {num : Num F}
        (leastsq : solver F) (values guesses a0 : list F)
        (rest : list (value F)) (guesses' : list F)
        (Ip R kappa P n B : value F) (out : lsq_output F) :
  len (Array a0 :: rest) = (len guesses - 1)%Z ->
  (length (Array a0 :: rest) <= 256)%nat ->
  length a0 = length values -> length guesses = length guesses' ->
  leastsq Powerlaw.errfunct guesses ((Array a0 :: rest) ++ [Array values])
  = Ok out ->
  leastsq Murari.errfunct_star guesses' [Ip; R; kappa; P; n; B; Array values]
  = Ok out ->
  Powerlaw.fit_model leastsq values guesses (Array a0 :: rest)
  = Murari.fit_model leastsq guesses' Ip R kappa P n B values.
Proof.
  intros Hlen Hsmall HN Hg Hout Hout'.
  rewrite (powerlaw_fit_model_returns leastsq values guesses a0 rest out
                                      Hlen Hsmall Hout).
  rewrite (murari_fit_model_returns leastsq guesses' Ip R kappa P n B values
                                    out Hout').
  unfold len. now rewrite HN, Hg.
Qed.

Lemma X17_fits_share_their_statistics_witness :
  let out := {| lsq_x := [1; 2]%R; lsq_cov_x := Some [[4; 0]; [0; 9]]%R;
                lsq_fvec := [3; 4; 5]%R; lsq_mesg := EmptyString;
                lsq_ier := 1%Z |} in
  let leastsq : solver R := fun _ _ _ => Ok out in
  Powerlaw.fit_model leastsq [10; 100; 1000]%R [1; 1]%R [Array [2; 3; 4]%R]
  = Murari.fit_model leastsq [5; 6]%R (Scalar 1%R) (Scalar 1%R) (Scalar 1%R)
                     (Scalar 1%R) (Scalar 1%R) (Scalar 1%R)
                     [10; 100; 1000]%R.
Proof.
  intros out leastsq.
  apply (X17_fits_share_their_statistics
           leastsq [10; 100; 1000]%R [1; 1]%R [2; 3; 4]%R [] [5; 6]%R
           (Scalar 1%R) (Scalar 1%R) (Scalar 1%R) (Scalar 1%R) (Scalar 1%R)
           (Scalar 1%R) out).
  - reflexivity.
  - cbn. lia.
  - reflexivity.
  - reflexivity.
  - reflexivity.
  - reflexivity.
Defined.

(** ** The statistics in exact real arithmetic *)

Section RealStatistics.
Local Open Scope R_scope.

Lemma Q2R_zero : Q2R 0 = 0.
Proof. unfold Q2R. cbn. lra. Qed.

Lemma Q2R_half : Q2R 0.5 = / 2.
Proof. unfold Q2R. cbn. lra. Qed.

(** [x ** 0.5] is the square root of a non-negative [x]. *)
Lemma Rpow_half (x : R) : 0 <= x -> Rpow x (Q2R 0.5) = sqrt x.
Proof.
  intros [Hpos | <-].
  - rewrite Rpow_pos, Q2R_half by assumption. now apply Rpower_sqrt.
  - unfold Rpow. destruct (Rlt_dec 0 0) as [H | _]; [lra |].
    destruct (Req_EM_T 0 0) as [_ | H]; [| lra].
    destruct (Req_EM_T (Q2R 0.5) 0) as [H | _];
      [rewrite Q2R_half in H; lra |].
    now rewrite sqrt_0.
Qed.

(** [x ** 2] is the square of any [x]. *)
Lemma Rpow_sq (x : R) : Rpow x (IZR 2) = x * x.
Proof.
  unfold Rpow. destruct (Rlt_dec 0 x) as [Hpos | Hnpos].
  - replace (IZR 2) with (1 + 1) by lra.
    now rewrite Rpower_plus, Rpower_1.
  - destruct (Req_EM_T x 0) as [-> | Hnz].
    + destruct (Req_EM_T 2 0); lra.
    + assert (Hint : Int_part 2 = 2%Z)
        by (symmetry; apply Int_part_spec; lra).
      rewrite Hint. destruct (Req_EM_T 2 2) as [_ | H]; [| lra].
      change (powerRZ x 2) with (x * (x * 1)). ring.
Qed.

Lemma fold_left_Rplus_le (l : list R) :
  Forall (fun x => 0 <= x) l ->
  forall a, a <= fold_left Rplus l a.
Proof.
  induction 1 as [| x l Hx _ IH]; intros a; cbn; [lra |].
  specialize (IH (a + x)). lra.
Qed.

Lemma fold_left_Rplus_eq (l : list R) :
  Forall (fun x => 0 <= x) l ->
  forall a, fold_left Rplus l a = a <-> Forall (fun x => x = 0) l.
Proof.
  induction 1 as [| x l Hx Hl IH]; intros a; cbn.
  - split; [constructor | reflexivity].
  - pose proof (fold_left_Rplus_le l Hl (a + x)) as Hle. split.
    + intros Heq. assert (Hx0 : x = 0) by lra. subst x.
      constructor; [reflexivity |].
      apply (IH (a + 0)). lra.
    + intros Hall. inversion Hall; subst.
      rewrite (proj2 (IH (a + 0))) by assumption. lra.
Qed.

Lemma sum_sq_nonneg (l : list R) : 0 <= sum_sq l.
Proof.
  unfold sum_sq, fsum. cbn [fadd of_int fpow R_num].
  apply fold_left_Rplus_le. apply Forall_forall. intros y Hy.
  apply in_map_iff in Hy as (x & <- & _). rewrite Rpow_sq. nra.
Qed.

Lemma sum_sq_zero_iff (l : list R) :
  sum_sq l = 0 <-> Forall (fun x => x = 0) l.
Proof.
  unfold sum_sq, fsum. cbn [fadd of_int fpow R_num].
  rewrite fold_left_Rplus_eq.
  - rewrite Forall_map.
    split; intros H; (eapply Forall_impl; [| exact H]); intros x;
      cbn beta; rewrite Rpow_sq; nra.
  - apply Forall_forall. intros y Hy.
    apply in_map_iff in Hy as (x & <- & _). rewrite Rpow_sq. nra.
Qed.

(** [R^2] is at most 1, and is 1 exactly when no residual is left. *)
Lemma r_squared_le_1 (fvec values : list R) :
  0 < ss_tot_log values ->
  r_squared fvec values <= 1 /\
  (r_squared fvec values = 1 <-> Forall (fun x => x = 0) fvec).
Proof.
  intros Htot. unfold r_squared. cbn [fsub fdiv fconst R_num].
  rewrite Q2R_one. pose proof (sum_sq_nonneg fvec) as Hnn.
  assert (Hq : 0 <= sum_sq fvec / ss_tot_log values).
  { apply Rmult_le_pos; [assumption |].
    apply Rlt_le, Rinv_0_lt_compat, Htot. }
  split; [lra |].
  rewrite <- sum_sq_zero_iff. split.
  - intros H. assert (H0 : sum_sq fvec / ss_tot_log values = 0) by lra.
    apply (Rmult_eq_compat_r (ss_tot_log values)) in H0.
    unfold Rdiv in H0. rewrite Rmult_assoc, Rinv_l, Rmult_1_r in H0; lra.
  - intros ->. unfold Rdiv. lra.
Qed.

(** Every error the loop produces is a square root or the fallback. *)
Lemma sigma_sqrt (cov : list (list R)) (w : R) (i : nat) :
  sigma cov w i
  = match entry cov i i with
    | Some c => sqrt (Rabs (c * w))
    | None => 0
    end.
Proof.
  unfold sigma. destruct (entry cov i i) as [c |].
  - cbn [fpow fabs fmul R_num]. apply Rpow_half, Rabs_pos.
  - apply Q2R_zero.
Qed.

Lemma error_loop_nonneg (cov : list (list R)) (w : R) (p1 : list R) :
  Forall (fun e => 0 <= e) (error_loop (mscale cov w) p1).
Proof.
  rewrite error_loop_sigma. apply Forall_forall. intros e He.
  apply in_map_iff in He as (i & <- & _). rewrite sigma_sqrt.
  destruct (entry cov i i); [apply sqrt_pos | lra].
Qed.

End RealStatistics.

(** X18.  In exact real arithmetic, the errors both [fit_model]s
    report are never negative, and the error of a parameter whose
    covariance entry [cov[i][i]] exists is the square root of
    [|cov[i][i] * SSresid / (N - #guesses)|]. *)
Theorem X18_errors_are_square_roots
        (leastsq : solver R) (values guesses a0 : list R)
        (rest : list (value R)) (out : lsq_output R)
        (guesses' : list R) (Ip Rm kappa P n B : value R)
        (out' : lsq_output R) :
  len (Array a0 :: rest) = (len guesses - 1)%Z ->
  (length (Array a0 :: rest) <= 256)%nat ->
  leastsq Powerlaw.errfunct guesses ((Array a0 :: rest) ++ [Array values])
  = Ok out ->
  leastsq Murari.errfunct_star guesses' [Ip; Rm; kappa; P; n; B; Array values]
  = Ok out' ->
  let w := (sum_sq (lsq_fvec out) / IZR (len a0 - len guesses))%R in
  let w' := (sum_sq (lsq_fvec out') / IZR (len values - len guesses'))%R in
  (exists res,
     Powerlaw.fit_model leastsq values guesses (Array a0 :: rest) = Ok res /\
     Forall (fun e => (0 <= e)%R) (fit_errors res) /\
     forall i c, (i < length (lsq_x out))%nat ->
       entry (cov_or_zeros out) i i = Some c ->
       nth_error (fit_errors res) i = Some (sqrt (Rabs (c * w)))) /\
  (exists res,
     Murari.fit_model leastsq guesses' Ip Rm kappa P n B values = Ok res /\
     Forall (fun e => (0 <= e)%R) (fit_errors res) /\
     forall i c, (i < length (lsq_x out'))%nat ->
       entry (cov_or_zeros out') i i = Some c ->
       nth_error (fit_errors res) i = Some (sqrt (Rabs (c * w')))).
Proof.
  intros Hlen Hsmall Hout Hout' w w'.
  rewrite (powerlaw_fit_model_returns leastsq values guesses a0 rest out
                                      Hlen Hsmall Hout).
  rewrite (murari_fit_model_returns leastsq guesses' Ip Rm kappa P n B values
                                    out' Hout').
  split; eexists; (split; [reflexivity |]); cbn [fit_errors];
    (split; [apply error_loop_nonneg |]);
    intros i c Hi Hc; rewrite nth_error_error_loop by assumption;
    rewrite sigma_sqrt, Hc; reflexivity.
Qed.

Lemma X18_errors_are_square_roots_witness :
  let out := {| lsq_x := [1; 2]%R; lsq_cov_x := Some [[4; 0]; [0; 9]]%R;
                lsq_fvec := [3; 4; 5]%R; lsq_mesg := EmptyString;
                lsq_ier := 1%Z |} in
  let leastsq : solver R := fun _ _ _ => Ok out in
  exists res,
    Powerlaw.fit_model leastsq [10; 100; 1000]%R [1; 1]%R [Array [2; 3; 4]%R]
    = Ok res /\
    Forall (fun e => (0 <= e)%R) (fit_errors res) /\
    nth_error (fit_errors res) 1
    = Some (sqrt (Rabs (9 * (sum_sq [3; 4; 5]%R / IZR (3 - 2))))).
Proof.
  intros out leastsq.
  destruct (X18_errors_are_square_roots
              leastsq [10; 100; 1000]%R [1; 1]%R [2; 3; 4]%R [] out
              [1; 1]%R (Scalar 1%R) (Scalar 1%R) (Scalar 1%R)
              (Scalar 1%R) (Scalar 1%R) (Scalar 1%R) out)
    as ((res & Hfit & Hnn & Herr) & _).
  - reflexivity.
  - cbn. lia.
  - reflexivity.
  - reflexivity.
  - exists res. split; [exact Hfit | split; [exact Hnn |]].
    apply (Herr 1%nat 9%R); [cbn; lia | reflexivity].
Defined.

Lemma ss_tot_log_example : (0 < ss_tot_log [1; 10]%R)%R.
Proof.
  destruct (sum_sq_nonneg
              (map (fun v => fsub (flog10 v) (flog10 (fmean [1; 10]%R)))
                   [1; 10]%R)) as [Hpos | Hzero]; [exact Hpos |].
  exfalso. symmetry in Hzero. apply sum_sq_zero_iff in Hzero.
  inversion Hzero as [| ? ? H1 _]. cbn in H1.
  unfold Rlog10 in H1. rewrite ln_1 in H1.
  pose proof ln_10_pos as H10.
  assert (Hm : (ln 1 < ln ((0 + 1 + 10) / 2))%R)
    by (apply ln_increasing; lra).
  rewrite ln_1 in Hm.
  assert (Hq : (0 < ln ((0 + 1 + 10) / 2) / ln 10)%R)
    by (apply Rdiv_lt_0_compat; assumption).
  replace (0 / ln 10)%R with 0%R in H1 by (unfold Rdiv; ring). lra.
Qed.

(** X19.  In exact real arithmetic and for data with a positive total
    sum of squares, the [R^2] both [fit_model]s report is at most 1,
    and it is 1 exactly when every residual of the solution is zero. *)
Theorem X19_r_squared_at_most_one
        (leastsq : solver R) (values guesses a0 : list R)
        (rest : list (value R)) (out : lsq_output R)
        (guesses' : list R) (Ip Rm kappa P n B : value R)
        (out' : lsq_output R) :
  len (Array a0 :: rest) = (len guesses - 1)%Z ->
  (length (Array a0 :: rest) <= 256)%nat ->
  leastsq Powerlaw.errfunct guesses ((Array a0 :: rest) ++ [Array values])
  = Ok out ->
  leastsq Murari.errfunct_star guesses' [Ip; Rm; kappa; P; n; B; Array values]
  = Ok out' ->
  (0 < ss_tot_log values)%R ->
  (exists res,
     Powerlaw.fit_model leastsq values guesses (Array a0 :: rest) = Ok res /\
     (fit_r2 res <= 1)%R /\
     (fit_r2 res = 1%R <-> Forall (fun x => x = 0%R) (lsq_fvec out))) /\
  (exists res,
     Murari.fit_model leastsq guesses' Ip Rm kappa P n B values = Ok res /\
     (fit_r2 res <= 1)%R /\
     (fit_r2 res = 1%R <-> Forall (fun x => x = 0%R) (lsq_fvec out'))).
Proof.
  intros Hlen Hsmall Hout Hout' Htot.
  rewrite (powerlaw_fit_model_returns leastsq values guesses a0 rest out
                                      Hlen Hsmall Hout).
  rewrite (murari_fit_model_returns leastsq guesses' Ip Rm kappa P n B values
                                    out' Hout').
  split; eexists; (split; [reflexivity |]); cbn [fit_r2];
    now apply r_squared_le_1.
Qed.

Lemma X19_r_squared_at_most_one_witness :
  let out := {| lsq_x := [1; 2]%R; lsq_cov_x := None;
                lsq_fvec := [0; 0]%R; lsq_mesg := EmptyString;
                lsq_ier := 1%Z |} in
  let leastsq : solver R := fun _ _ _ => Ok out in
  exists res,
    Murari.fit_model leastsq [1; 1]%R (Scalar 1%R) (Scalar 1%R) (Scalar 1%R)
                     (Scalar 1%R) (Scalar 1%R) (Scalar 1%R) [1; 10]%R
    = Ok res /\
    fit_r2 res = 1%R.
Proof.
  intros out leastsq.
  destruct (X19_r_squared_at_most_one
              leastsq [1; 10]%R [1; 1]%R [2; 3]%R [] out
              [1; 1]%R (Scalar 1%R) (Scalar 1%R) (Scalar 1%R)
              (Scalar 1%R) (Scalar 1%R) (Scalar 1%R) out)
    as (_ & (res & Hfit & _ & Hone)).
  - reflexivity.
  - cbn. lia.
  - reflexivity.
  - reflexivity.
  - exact ss_tot_log_example.
  - exists res. split; [exact Hfit |].
    apply Hone. repeat constructor.
Defined.

(** X20.  For any floating-point operations: with at least eight
    parameters and inputs and measurement that are scalars or arrays of
    [N] samples, the NPL [errfunct] returns, and at every sample its
    result is the measured [tau] minus the model value. *)
Theorem X20_NPL_errfunct_sample_by_sample {F : Type} {num : Num F} (N : nat)
        (params : list F) (Ip R kappa P n B tau : value F) :
  (8 <= length params)%nat ->
  conforms N Ip -> conforms N R -> conforms N kappa -> conforms N P ->
  conforms N n -> conforms N B -> conforms N tau ->
  exists m r,
    Murari.NPL params Ip R kappa P n B = Ok m /\
    Murari.errfunct params Ip R kappa P n B tau = Ok r /\
    conforms N r /\
    is_scalar r = is_scalar tau && is_scalar m /\
    forall j, (j < N)%nat -> vnth r j = fsub (vnth tau j) (vnth m j).
Proof.
  intros Hlen HIp HR Hk HP Hn HB Htau.
  destruct (NPL_spec N params Ip R kappa P n B Hlen HIp HR Hk HP Hn HB)
    as (m & Hm & Hmconf & _).
  destruct (bop_spec fsub N tau m Htau Hmconf)
    as (r & Hr & Hrconf & Hrkind & Hrpt).
  exists m, r. unfold Murari.errfunct. rewrite Hm. cbn [bind].
  repeat split; assumption.
Qed.

Lemma X20_NPL_errfunct_sample_by_sample_witness :
  exists m r,
    Murari.NPL [7; 1; 2; 3; 1; 2; 1; 3]%R (Scalar 2%R) (Scalar 3%R)
               (Scalar 2%R) (Scalar 6%R) (Array [4; 8]%R) (Scalar 5%R)
    = Ok m /\
    Murari.errfunct [7; 1; 2; 3; 1; 2; 1; 3]%R (Scalar 2%R) (Scalar 3%R)
                    (Scalar 2%R) (Scalar 6%R) (Array [4; 8]%R) (Scalar 5%R)
                    (Array [1; 2]%R)
    = Ok r /\
    vnth r 1 = (2 - vnth m 1)%R.
Proof.
  destruct (X20_NPL_errfunct_sample_by_sample
              2 [7; 1; 2; 3; 1; 2; 1; 3]%R (Scalar 2%R) (Scalar 3%R)
              (Scalar 2%R) (Scalar 6%R) (Array [4; 8]%R) (Scalar 5%R)
              (Array [1; 2]%R))
    as (m & r & Hm & Hr & _ & _ & Hpt).
  - cbn. lia.
  - exact I.
  - exact I.
  - exact I.
  - exact I.
  - reflexivity.
  - exact I.
  - reflexivity.
  - exists m, r. split; [exact Hm | split; [exact Hr |]].
    apply (Hpt 1%nat). lia.
Defined.
